(** * Session controller of the Android speech-recognition plugin

    Shallow embedding of
    [android/src/main/java/app/capgo/speechrecognition/SpeechRecognitionPlugin.java].

    The plugin object is a record of its mutable fields.  Everything the
    plugin does to the outside (events given to [notifyListeners], replies
    to a [PluginCall], runnables posted to the main looper, the popup
    activity) is recorded in a [World] that the methods thread through a
    small state monad.  The native recognizer is an opaque handle; the
    points where it may throw are inputs of the step that runs the code. *)

From stdpp Require Import base strings gmap list pretty.
From Stdlib Require Import ZArith Lia Bool Ascii.

Local Open Scope Z_scope.

(* ===================================================================== *)
(** ** Java strings *)

(** [String.trim()] removes, at both ends, the characters whose code is at
    most U+0020. *)
Definition isWhitespace (c : ascii) : bool := (nat_of_ascii c <=? 32)%nat.

Fixpoint trimLeft (s : string) : string :=
  match s with
  | EmptyString => EmptyString
  | String c r => if isWhitespace c then trimLeft r else s
  end.

Fixpoint trimRight (s : string) : string :=
  match s with
  | EmptyString => EmptyString
  | String c r =>
      match trimRight r with
      | EmptyString => if isWhitespace c then EmptyString else String c EmptyString
      | r' => String c r'
      end
  end.

Definition trim (s : string) : string := trimRight (trimLeft s).

Definition isEmpty (s : string) : bool :=
  match s with EmptyString => true | _ => false end.

(** [s.endsWith(suffix)] *)
Fixpoint endsWith (s suffix : string) : bool :=
  String.eqb s suffix
  || match s with
     | EmptyString => false
     | String _ r => endsWith r suffix
     end.

(* ===================================================================== *)
(** ** Java integers *)

(** [long] arithmetic wraps around in two's complement on 64 bits. *)
Definition Long_MIN_VALUE : Z := - 2 ^ 63.
Definition Long_MAX_VALUE : Z := 2 ^ 63 - 1.

Definition wrap64 (n : Z) : Z := (n + 2 ^ 63) mod 2 ^ 64 - 2 ^ 63.

(** [Integer.toString], as used by string concatenation. *)
Definition Integer_toString (n : Z) : string := pretty n.

(* ===================================================================== *)
(** ** JSON payloads *)

Inductive JSValue :=
| JString (s : string)
| JLong (n : Z)
| JBool (b : bool)
| JArray (items : list (option string)).

(** A [JSObject] is a map from keys to values, [gmap string JSValue];
    [put] overwrites. *)
Definition put (key : string) (value : JSValue) (o : gmap string JSValue) : gmap string JSValue :=
  <[key := value]> o.

(** [JSObject.put(key, (String) null)] removes the key. *)
Definition putString (key : string) (value : option string) (o : gmap string JSValue) : gmap string JSValue :=
  match value with
  | Some s => <[key := JString s]> o
  | None => delete key o
  end.

(** [new JSArray(collection)]: a null collection gives the empty array, a
    null element the JSON null. *)
Definition JSArray_of (matches : option (list (option string))) : list (option string) :=
  match matches with
  | Some l => l
  | None => []
  end.

(* ===================================================================== *)
(** ** Error and reason mapping *)

(** Error codes of [android.speech.SpeechRecognizer] (platform constants). *)
Definition ERROR_NETWORK_TIMEOUT : Z := 1.
Definition ERROR_NETWORK : Z := 2.
Definition ERROR_AUDIO : Z := 3.
Definition ERROR_SERVER : Z := 4.
Definition ERROR_CLIENT : Z := 5.
Definition ERROR_SPEECH_TIMEOUT : Z := 6.
Definition ERROR_NO_MATCH : Z := 7.
Definition ERROR_RECOGNIZER_BUSY : Z := 8.
Definition ERROR_INSUFFICIENT_PERMISSIONS : Z := 9.

Definition getErrorCode (errorCode : Z) : string :=
  if errorCode =? ERROR_AUDIO then "AUDIO"
  else if errorCode =? ERROR_CLIENT then "CLIENT"
  else if errorCode =? ERROR_INSUFFICIENT_PERMISSIONS then "INSUFFICIENT_PERMISSIONS"
  else if errorCode =? ERROR_NETWORK then "NETWORK"
  else if errorCode =? ERROR_NETWORK_TIMEOUT then "NETWORK_TIMEOUT"
  else if errorCode =? ERROR_NO_MATCH then "NO_MATCH"
  else if errorCode =? ERROR_RECOGNIZER_BUSY then "RECOGNIZER_BUSY"
  else if errorCode =? ERROR_SERVER then "SERVER"
  else if errorCode =? ERROR_SPEECH_TIMEOUT then "SPEECH_TIMEOUT"
  else "UNKNOWN_" +:+ Integer_toString errorCode.

Definition getErrorText (errorCode : Z) : string :=
  if errorCode =? ERROR_AUDIO then "Audio recording error"
  else if errorCode =? ERROR_CLIENT then "Client side error"
  else if errorCode =? ERROR_INSUFFICIENT_PERMISSIONS then "Insufficient permissions"
  else if errorCode =? ERROR_NETWORK then "Network error"
  else if errorCode =? ERROR_NETWORK_TIMEOUT then "Network timeout"
  else if errorCode =? ERROR_NO_MATCH then "No match"
  else if errorCode =? ERROR_RECOGNIZER_BUSY then "RecognitionService busy"
  else if errorCode =? ERROR_SERVER then "Error from server"
  else if errorCode =? ERROR_SPEECH_TIMEOUT then "No speech input"
  else "Didn't understand, please try again.".

(** The reason [onError] derives from the native code. *)
Definition errorReason (error : Z) : string :=
  if (error =? ERROR_NO_MATCH) || (error =? ERROR_SPEECH_TIMEOUT)
  then "silence" else "error".

(* ===================================================================== *)
(** ** Result bundles and the merge of the unstable text *)

(** The two entries of a results [Bundle] the plugin reads; either may be
    absent, and a match may be null. *)
Record Bundle := mkBundle {
  RESULTS_RECOGNITION : option (list (option string));
  UNSTABLE_TEXT : option string
}.

Definition buildMatchesWithUnstableText (resultsBundle : Bundle)
  : option (list (option string)) :=
  match RESULTS_RECOGNITION resultsBundle with
  | None => None
  | Some [] => Some []
  | Some ((firstMatch :: rest) as matches) =>
      match UNSTABLE_TEXT resultsBundle with
      | Some unstableText =>
          let trimmedUnstable := trim unstableText in
          if isEmpty trimmedUnstable then Some matches
          else
            match firstMatch with
            | None => Some matches
            | Some firstMatch =>
                let trimmedFirstMatch := trim firstMatch in
                if String.eqb trimmedFirstMatch trimmedUnstable
                   || endsWith trimmedFirstMatch (" " +:+ trimmedUnstable)
                then Some matches
                else Some (Some (trimmedFirstMatch +:+ " " +:+ trimmedUnstable) :: rest)
            end
      | None => Some matches
      end
  end.

(* ===================================================================== *)
(** ** The plugin object and its surroundings *)

Inductive ListeningState := IDLE | STARTING | STARTED | STOPPING.

Inductive PermissionState := GRANTED | DENIED | PROMPT | PROMPT_WITH_RATIONALE.

(** Modelled from the spec: [Constants.java] is not under src/.  The event
    names the plugin passes to [notifyListeners] are kept as an
    enumeration under the names the plugin uses for them. *)
Inductive EventName :=
| LISTENING_EVENT
| PARTIAL_RESULTS_EVENT
| SEGMENT_RESULTS_EVENT
| END_OF_SEGMENT_EVENT
| ERROR_EVENT
| READY_FOR_NEXT_SESSION_EVENT.

(** Modelled from the spec: [Constants.MAX_RESULTS] is not under src/;
    [definitions.ts] documents 5 as the default of [maxResults]. *)
Definition MAX_RESULTS : Z := 5.

(** Text handed to [call.reject] or [call.unavailable]; the two message
    constants of [Constants] stay symbolic. *)
Inductive Message :=
| NOT_AVAILABLE
| MISSING_PERMISSION
| Text (s : option string).

(** A bridge call with the options [start] reads from it, as the getters
    of [PluginCall] return them: a field is [None] when the key is missing
    or when its value does not have the type the getter expects
    ([getInt] takes an [Integer] only), and the getter then returns its
    default. *)
Record PluginCall := mkCall {
  callId : nat;
  opt_language : option string;
  opt_maxResults : option Z;
  opt_prompt : option string;
  opt_partialResults : option bool;
  opt_popup : option bool;
  opt_allowForSilence : option Z
}.

(** [call.resolve()] without data is [Resolve ∅]. *)
Inductive Reply :=
| Resolve (data : gmap string JSValue)
| Reject (m : Message)
| Unavailable (m : Message).

(** The extras [beginListening] puts on the recognition intent. *)
Record Intent := mkIntent {
  EXTRA_LANGUAGE : string;
  EXTRA_MAX_RESULTS : Z;
  EXTRA_PARTIAL_RESULTS : bool;
  DICTATION_MODE : bool;
  EXTRA_SEGMENTED_SESSION : option Z;
  EXTRA_PROMPT : option string
}.

(** The inner class [SpeechRecognitionListener]: the session id is fixed
    by the constructor, [call] and [partialResults] by the setters. *)
Record SpeechRecognitionListener := mkListener {
  listenerSessionId : Z;
  call : option PluginCall;
  partialResults : bool
}.

(** The native recognizer, seen from the plugin: its listener and the
    intent it was started with, if it is capturing. *)
Record SpeechRecognizer := mkRecognizer {
  recognitionListener : SpeechRecognitionListener;
  capturing : option Intent
}.

Record Plugin := mkPlugin {
  speechRecognizer : option SpeechRecognizer;
  listening : bool;
  previousPartialResults : list (option string);
  state : ListeningState;
  sessionId : Z;
  readyForNext : bool
}.

(** Runnables the plugin posts to the main thread.  [AnnounceTask] is
    what is left of the runnable of [finishSession] once it has recreated
    the recognizer and emitted its first event: the stopped event. *)
Inductive Task :=
| BeginTask (intent : Intent) (call : PluginCall) (partialResults : bool)
            (currentSessionId : Z)
| StopTask
| RecreateTask (finishedSessionId : Z) (reason : string) (errorCode : option string)
| AnnounceTask (finishedSessionId : Z) (reason : string) (errorCode : option string).

Record World := mkWorld {
  plugin : Plugin;
  mainLooper : list Task;
  emitted : list (EventName * gmap string JSValue);
  replies : list (PluginCall * Reply);
  activities : list (PluginCall * Intent);
  crashed : bool
}.

(** The field initializers.  [load], which posts the creation of a first
    recognizer, is left out: the listener it installs is covered by the
    engine callbacks of [Input], which may carry any listener. *)
Definition initialPlugin : Plugin :=
  {| speechRecognizer := None;
     listening := false;
     previousPartialResults := [];
     state := IDLE;
     sessionId := 0;
     readyForNext := true |}.

Definition initialWorld : World :=
  {| plugin := initialPlugin;
     mainLooper := [];
     emitted := [];
     replies := [];
     activities := [];
     crashed := false |}.

Definition ListeningState_eqb (a b : ListeningState) : bool :=
  match a, b with
  | IDLE, IDLE | STARTING, STARTING | STARTED, STARTED | STOPPING, STOPPING => true
  | _, _ => false
  end.

Definition PermissionState_eqb (a b : PermissionState) : bool :=
  match a, b with
  | GRANTED, GRANTED | DENIED, DENIED | PROMPT, PROMPT
  | PROMPT_WITH_RATIONALE, PROMPT_WITH_RATIONALE => true
  | _, _ => false
  end.

(** [previousPartialResults.equals(matchesJSON)]: two JSON arrays are
    equal when their elements are. *)
Definition matches_eqb (a b : list (option string)) : bool :=
  bool_decide (a = b).

(* ===================================================================== *)
(** ** Actions: a state monad over the world *)

Definition Act (A : Type) : Type := World -> A * World.

Definition ret {A} (a : A) : Act A := fun w => (a, w).

Definition bind {A B} (m : Act A) (k : A -> Act B) : Act B :=
  fun w => let (a, w') := m w in k a w'.

Declare Scope act_scope.
Delimit Scope act_scope with act.
Notation "'let*' x := m 'in' k" := (bind m (fun x => k))
  (at level 10, x name, m at level 100, k at level 200) : act_scope.
Notation "m >> k" := (bind m (fun _ => k))
  (at level 100, k at level 200, right associativity) : act_scope.
Local Open Scope act_scope.

Definition exec {A} (m : Act A) (w : World) : World := snd (m w).

Definition read {A} (field : Plugin -> A) : Act A :=
  fun w => (field (plugin w), w).

Definition update (f : Plugin -> Plugin) : Act unit :=
  fun w => (tt, {| plugin := f (plugin w);
                   mainLooper := mainLooper w;
                   emitted := emitted w;
                   replies := replies w;
                   activities := activities w;
                   crashed := crashed w |}).

Definition set_speechRecognizer (v : option SpeechRecognizer) (p : Plugin) : Plugin :=
  {| speechRecognizer := v; listening := listening p;
     previousPartialResults := previousPartialResults p;
     state := state p; sessionId := sessionId p; readyForNext := readyForNext p |}.

Definition set_listening (v : bool) (p : Plugin) : Plugin :=
  {| speechRecognizer := speechRecognizer p; listening := v;
     previousPartialResults := previousPartialResults p;
     state := state p; sessionId := sessionId p; readyForNext := readyForNext p |}.

Definition set_previousPartialResults (v : list (option string)) (p : Plugin) : Plugin :=
  {| speechRecognizer := speechRecognizer p; listening := listening p;
     previousPartialResults := v;
     state := state p; sessionId := sessionId p; readyForNext := readyForNext p |}.

Definition set_state (v : ListeningState) (p : Plugin) : Plugin :=
  {| speechRecognizer := speechRecognizer p; listening := listening p;
     previousPartialResults := previousPartialResults p;
     state := v; sessionId := sessionId p; readyForNext := readyForNext p |}.

Definition set_sessionId (v : Z) (p : Plugin) : Plugin :=
  {| speechRecognizer := speechRecognizer p; listening := listening p;
     previousPartialResults := previousPartialResults p;
     state := state p; sessionId := v; readyForNext := readyForNext p |}.

Definition set_readyForNext (v : bool) (p : Plugin) : Plugin :=
  {| speechRecognizer := speechRecognizer p; listening := listening p;
     previousPartialResults := previousPartialResults p;
     state := state p; sessionId := sessionId p; readyForNext := v |}.

(** [notifyListeners(eventName, data)] *)
Definition notifyListeners (eventName : EventName) (data : gmap string JSValue) : Act unit :=
  fun w => (tt, {| plugin := plugin w;
                   mainLooper := mainLooper w;
                   emitted := emitted w ++ [(eventName, data)];
                   replies := replies w;
                   activities := activities w;
                   crashed := crashed w |}).

(** [bridge.getWebView().post(r)] and [new Handler(Looper.getMainLooper()).post(r)]:
    both append to the queue of the main thread. *)
Definition post (r : Task) : Act unit :=
  fun w => (tt, {| plugin := plugin w;
                   mainLooper := mainLooper w ++ [r];
                   emitted := emitted w;
                   replies := replies w;
                   activities := activities w;
                   crashed := crashed w |}).

(** [call.resolve(..)], [call.reject(..)], [call.unavailable(..)] *)
Definition answer (c : PluginCall) (r : Reply) : Act unit :=
  fun w => (tt, {| plugin := plugin w;
                   mainLooper := mainLooper w;
                   emitted := emitted w;
                   replies := replies w ++ [(c, r)];
                   activities := activities w;
                   crashed := crashed w |}).

Definition startActivityForResult (c : PluginCall) (intent : Intent) : Act unit :=
  fun w => (tt, {| plugin := plugin w;
                   mainLooper := mainLooper w;
                   emitted := emitted w;
                   replies := replies w;
                   activities := activities w ++ [(c, intent)];
                   crashed := crashed w |}).

(** An exception that leaves a runnable of the main thread. *)
Definition uncaught : Act unit :=
  fun w => (tt, {| plugin := plugin w;
                   mainLooper := mainLooper w;
                   emitted := emitted w;
                   replies := replies w;
                   activities := activities w;
                   crashed := true |}).

Definition when (b : bool) (m : Act unit) : Act unit :=
  if b then m else ret tt.

(* ===================================================================== *)
(** ** The payloads the plugin builds *)

(** [if (errorCode != null) payload.put("errorCode", errorCode)] *)
Definition putErrorCode (errorCode : option string) (o : gmap string JSValue)
  : gmap string JSValue :=
  match errorCode with
  | Some c => put "errorCode" (JString c) o
  | None => o
  end.

(** [startingPayload] of [start] *)
Definition startingPayload (currentSessionId : Z) : gmap string JSValue :=
  put "reason" (JString "userStart")
    (put "sessionId" (JLong currentSessionId)
      (put "state" (JString "startingListening") ∅)).

(** [stoppingPayload] of [stop] *)
Definition userStopPayload (currentSessionId : Z) : gmap string JSValue :=
  put "reason" (JString "userStop")
    (put "sessionId" (JLong currentSessionId)
      (put "state" (JString "stoppingListening") ∅)).

(** [startedPayload] of the runnable of [beginListening] *)
Definition startedPayload (currentSessionId : Z) : gmap string JSValue :=
  put "status" (JString "started")
    (put "reason" (JString "userStart")
      (put "sessionId" (JLong currentSessionId)
        (put "state" (JString "started") ∅))).

(** [errorPayload] of the [catch] of that runnable *)
Definition startFailedPayload (message : option string) (currentSessionId : Z)
  : gmap string JSValue :=
  put "sessionId" (JLong currentSessionId)
    (putString "message" message
      (put "code" (JString "START_FAILED") ∅)).

(** [stoppingPayload] of [finishSession] *)
Definition stoppingPayload (finishedSessionId : Z) (reason : string)
    (errorCode : option string) : gmap string JSValue :=
  putErrorCode errorCode
    (put "reason" (JString reason)
      (put "sessionId" (JLong finishedSessionId)
        (put "state" (JString "stoppingListening") ∅))).

(** [readyPayload], [err] and [stoppedPayload] of the runnable of
    [finishSession] *)
Definition readyPayload (finishedSessionId : Z) : gmap string JSValue :=
  put "sessionId" (JLong finishedSessionId) ∅.

Definition recreateFailedPayload (message : option string) (finishedSessionId : Z)
  : gmap string JSValue :=
  put "sessionId" (JLong finishedSessionId)
    (putString "message" message
      (put "code" (JString "RECREATE_FAILED") ∅)).

Definition stoppedPayload (finishedSessionId : Z) (reason : string)
    (errorCode : option string) : gmap string JSValue :=
  put "status" (JString "stopped")
    (putErrorCode errorCode
      (put "reason" (JString reason)
        (put "sessionId" (JLong finishedSessionId)
          (put "state" (JString "stopped") ∅)))).

(** [errorPayload] of [onError] *)
Definition errorPayload (errorCode errorMessage : string) (currentSessionId : Z)
  : gmap string JSValue :=
  put "sessionId" (JLong currentSessionId)
    (put "message" (JString errorMessage)
      (put "code" (JString errorCode) ∅)).

(** The payload of partial and segment results *)
Definition matchesPayload (matches : list (option string)) : gmap string JSValue :=
  put "matches" (JArray matches) ∅.

(* ===================================================================== *)
(** ** The methods of the plugin *)

(** What [start] asks of the platform. *)
Record Env := mkEnv {
  isRecognitionAvailable : bool;
  getPermissionState : PermissionState;
  defaultLocale : string
}.

(** [finishSession(finishedSessionId, reason, errorCode)].  Exceptions of
    [cancel] and [destroy] are swallowed and the field is nulled in both
    cases. *)
Definition finishSession (finishedSessionId : Z) (reason : string)
    (errorCode : option string) : Act unit :=
  let* current := read sessionId in
  if negb (finishedSessionId =? current) then ret tt
  else
    let* st := read state in
    when (negb (ListeningState_eqb st STOPPING))
      (update (set_state STOPPING) >>
       notifyListeners LISTENING_EVENT
         (stoppingPayload finishedSessionId reason errorCode)) >>
    update (set_speechRecognizer None) >>
    update (set_state IDLE) >>
    update (set_listening false) >>
    update (set_readyForNext false) >>
    post (RecreateTask finishedSessionId reason errorCode).

(** [beginListening(...)] *)
Definition beginListening (language : string) (maxResults : Z)
    (prompt : option string) (partialResults showPopup : bool)
    (call : PluginCall) (allowForSilence : Z) (currentSessionId : Z) : Act unit :=
  let intent :=
    {| EXTRA_LANGUAGE := language;
       EXTRA_MAX_RESULTS := maxResults;
       EXTRA_PARTIAL_RESULTS := partialResults;
       DICTATION_MODE := partialResults;
       EXTRA_SEGMENTED_SESSION :=
         if 0 <? allowForSilence then Some allowForSilence else None;
       EXTRA_PROMPT := prompt |} in
  if showPopup then startActivityForResult call intent
  else post (BeginTask intent call partialResults currentSessionId).

(** [start(call)] *)
Definition start (env : Env) (call : PluginCall) : Act unit :=
  if negb (isRecognitionAvailable env) then answer call (Unavailable NOT_AVAILABLE)
  else if negb (PermissionState_eqb (getPermissionState env) GRANTED)
  then answer call (Reject MISSING_PERMISSION)
  else
    let* previous := read sessionId in
    update (set_sessionId (wrap64 (previous + 1))) >>
    update (set_state STARTING) >>
    let* currentSessionId := read sessionId in
    notifyListeners LISTENING_EVENT (startingPayload currentSessionId) >>
    let language := default (defaultLocale env) (opt_language call) in
    let maxResults := default MAX_RESULTS (opt_maxResults call) in
    let prompt := opt_prompt call in
    let partialResults := default false (opt_partialResults call) in
    let popup := default false (opt_popup call) in
    let allowForSilence := default 0 (opt_allowForSilence call) in
    beginListening language maxResults prompt partialResults popup call
      allowForSilence currentSessionId.

(** [stopListening()] posts the runnable [StopTask]. *)
Definition stopListening : Act unit := post StopTask.

(** [stop(call)] *)
Definition stop (call : PluginCall) : Act unit :=
  let* st := read state in
  if ListeningState_eqb st IDLE then answer call (Resolve ∅)
  else
    update (set_state STOPPING) >>
    let* currentSessionId := read sessionId in
    notifyListeners LISTENING_EVENT (userStopPayload currentSessionId) >>
    stopListening >>
    answer call (Resolve ∅).

(** [isListening(call)] *)
Definition isListening (call : PluginCall) : Act unit :=
  let* l := read listening in
  answer call (Resolve (put "listening" (JBool l) ∅)).

(** [permissionStateValue(state)] *)
Definition permissionStateValue (state : PermissionState) : string :=
  match state with
  | GRANTED => "granted"
  | DENIED => "denied"
  | PROMPT | PROMPT_WITH_RATIONALE => "prompt"
  end.

(** [available(call)] *)
Definition available (env : Env) (call : PluginCall) : Act unit :=
  answer call (Resolve (put "available" (JBool (isRecognitionAvailable env)) ∅)).

(** [checkPermissions(call)] *)
Definition checkPermissions (env : Env) (call : PluginCall) : Act unit :=
  let state := permissionStateValue (getPermissionState env) in
  answer call (Resolve (put "speechRecognition" (JString state) ∅)).

(** [permissionsCallback(call)], which the bridge calls once the user has
    answered the request posted by [requestPermissions]. *)
Definition permissionsCallback (env : Env) (call : PluginCall) : Act unit :=
  let state := permissionStateValue (getPermissionState env) in
  answer call (Resolve (put "speechRecognition" (JString state) ∅)).

(** What reading the matches out of the data of an activity result
    gives: the list extra (possibly null), or an exception with its
    message. *)
Inductive ActivityData :=
| Extras (matchesList : option (list (option string)))
| Unreadable (message : option string).

Record ActivityResult := mkActivityResult {
  getResultCode : Z;
  getData : ActivityData
}.

Definition RESULT_OK : Z := -1.

(** [listeningResult(call, result)] *)
Definition listeningResult (call : option PluginCall) (result : ActivityResult) : Act unit :=
  match call with
  | None => ret tt
  | Some call =>
      (if getResultCode result =? RESULT_OK then
         match getData result with
         | Extras matchesList =>
             answer call (Resolve (put "matches" (JArray (JSArray_of matchesList)) ∅))
         | Unreadable message => answer call (Reject (Text message))
         end
       else answer call (Reject (Text (Some (Integer_toString (getResultCode result)))))) >>
      update (set_listening false)
  end.

(** What the native side does while a posted runnable runs. *)
Inductive NativeOutcome :=
| NativeOk
| CreateThrows (message : option string)
| StartListeningThrows (message : option string).

(** The runnable posted by [beginListening].  A recognizer still in the
    field is cancelled and destroyed first; creating the new one or
    starting it may throw, which the [catch] turns into START_FAILED. *)
Definition runBegin (native : NativeOutcome) (intent : Intent) (call : PluginCall)
    (partialResults : bool) (currentSessionId : Z) : Act unit :=
  let listener :=
    {| listenerSessionId := currentSessionId;
       call := Some call;
       partialResults := partialResults |} in
  let failed (message : option string) : Act unit :=
    notifyListeners ERROR_EVENT (startFailedPayload message currentSessionId) >>
    finishSession currentSessionId "error" (Some "START_FAILED") >>
    answer call (Reject (Text message)) in
  update (set_speechRecognizer None) >>
  match native with
  | CreateThrows message => failed message
  | StartListeningThrows message =>
      update (set_speechRecognizer (Some (mkRecognizer listener None))) >>
      failed message
  | NativeOk =>
      update (set_speechRecognizer (Some (mkRecognizer listener (Some intent)))) >>
      update (set_listening true) >>
      update (set_state STARTED) >>
      notifyListeners LISTENING_EVENT (startedPayload currentSessionId) >>
      when partialResults (answer call (Resolve ∅))
  end.

(** The runnable posted by [stopListening]; with no recognizer the call
    on the null field throws, and the runnable rethrows.  The native
    [stopListening] itself is taken not to throw. *)
Definition runStop : Act unit :=
  let* l := read listening in
  if l then
    let* r := read speechRecognizer in
    match r with
    | None => uncaught
    | Some r =>
        update (set_speechRecognizer (Some (mkRecognizer (recognitionListener r) None))) >>
        update (set_listening false)
    end
  else ret tt.

(** The runnable posted by [finishSession], in its two parts.  The first
    recreates the recognizer and emits the ready event, or the error
    event when the creation throws (nothing else can throw here); the
    dummy listener takes the session id that is current when the runnable
    runs.  The second emits the stopped event.  The runnable holds the
    lock only while it sets [readyForNext]: both events are emitted
    outside it. *)
Definition recreateRecognizer (native : NativeOutcome) (finishedSessionId : Z) : Act unit :=
  match native with
  | CreateThrows message =>
      notifyListeners ERROR_EVENT (recreateFailedPayload message finishedSessionId)
  | _ =>
      let* current := read sessionId in
      let dummyListener :=
        {| listenerSessionId := current; call := None; partialResults := false |} in
      update (set_speechRecognizer (Some (mkRecognizer dummyListener None))) >>
      update (set_readyForNext true) >>
      notifyListeners READY_FOR_NEXT_SESSION_EVENT (readyPayload finishedSessionId)
  end.

Definition announceStopped (finishedSessionId : Z) (reason : string)
    (errorCode : option string) : Act unit :=
  notifyListeners LISTENING_EVENT (stoppedPayload finishedSessionId reason errorCode).

Definition runRecreate (native : NativeOutcome) (finishedSessionId : Z)
    (reason : string) (errorCode : option string) : Act unit :=
  recreateRecognizer native finishedSessionId >>
  announceStopped finishedSessionId reason errorCode.

Definition runTask (native : NativeOutcome) (r : Task) : Act unit :=
  match r with
  | BeginTask intent call partialResults currentSessionId =>
      runBegin native intent call partialResults currentSessionId
  | StopTask => runStop
  | RecreateTask finishedSessionId reason errorCode =>
      runRecreate native finishedSessionId reason errorCode
  | AnnounceTask finishedSessionId reason errorCode =>
      announceStopped finishedSessionId reason errorCode
  end.

(** The main thread takes the oldest posted runnable and runs it. *)
Definition runPosted (native : NativeOutcome) : Act unit :=
  fun w =>
    match mainLooper w with
    | [] => (tt, w)
    | r :: rest =>
        runTask native r
          {| plugin := plugin w;
             mainLooper := rest;
             emitted := emitted w;
             replies := replies w;
             activities := activities w;
             crashed := crashed w |}
    end.

(** The main thread gets as far as the first event of the recreate
    runnable before the bridge thread runs: the rest of the runnable,
    [AnnounceTask], stays at the head of the queue.  With another
    runnable at the head nothing happens. *)
Definition runRecreateFirst (native : NativeOutcome) : Act unit :=
  fun w =>
    match mainLooper w with
    | RecreateTask finishedSessionId reason errorCode :: rest =>
        recreateRecognizer native finishedSessionId
          {| plugin := plugin w;
             mainLooper := AnnounceTask finishedSessionId reason errorCode :: rest;
             emitted := emitted w;
             replies := replies w;
             activities := activities w;
             crashed := crashed w |}
    | _ => (tt, w)
    end.

(** *** The callbacks of [SpeechRecognitionListener] *)

Definition onError (this : SpeechRecognitionListener) (error : Z) : Act unit :=
  let currentSessionId := listenerSessionId this in
  let errorCode := getErrorCode error in
  let errorMessage := getErrorText error in
  notifyListeners ERROR_EVENT (errorPayload errorCode errorMessage currentSessionId) >>
  let reason := errorReason error in
  finishSession currentSessionId reason (Some errorCode) >>
  match call this with
  | Some c => when (negb (partialResults this)) (answer c (Reject (Text (Some errorMessage))))
  | None => ret tt
  end.

(** Nothing in the [try] block of [onResults] throws on these values, so
    its [catch] branch does not appear. *)
Definition onResults (this : SpeechRecognitionListener) (results : Bundle) : Act unit :=
  let currentSessionId := listenerSessionId this in
  let matches := buildMatchesWithUnstableText results in
  let jsArray := JSArray_of matches in
  match call this with
  | Some c =>
      if negb (partialResults this) then
        answer c (Resolve (put "matches" (JArray jsArray) (put "status" (JString "success") ∅)))
      else
        notifyListeners PARTIAL_RESULTS_EVENT (matchesPayload jsArray)
  | None => ret tt
  end >>
  finishSession currentSessionId "results" None.

Definition onPartialResults (this : SpeechRecognitionListener)
    (partialResultsBundle : Bundle) : Act unit :=
  match buildMatchesWithUnstableText partialResultsBundle with
  | None | Some [] => ret tt
  | Some matches =>
      let* previous := read previousPartialResults in
      if negb (matches_eqb previous matches) then
        update (set_previousPartialResults matches) >>
        notifyListeners PARTIAL_RESULTS_EVENT (matchesPayload matches)
      else ret tt
  end.

Definition onSegmentResults (this : SpeechRecognitionListener) (results : Bundle) : Act unit :=
  match RESULTS_RECOGNITION results with
  | None => ret tt
  | Some matches => notifyListeners SEGMENT_RESULTS_EVENT (matchesPayload matches)
  end.

Definition onEndOfSegmentedSession (this : SpeechRecognitionListener) : Act unit :=
  notifyListeners END_OF_SEGMENT_EVENT ∅.

(** [onReadyForSpeech], [onBeginningOfSpeech], [onRmsChanged],
    [onBufferReceived], [onEndOfSpeech] and [onEvent] only log. *)
Definition onBeginningOfSpeech (this : SpeechRecognitionListener) : Act unit := ret tt.
Definition onEndOfSpeech (this : SpeechRecognitionListener) : Act unit := ret tt.

(* ===================================================================== *)
(** ** Runs *)

(** What can happen to the plugin: a bridge call, the activity result of
    the popup, the main thread running the next posted runnable, or the
    recognizer calling a listener back.  Each is processed as one step;
    a callback may come from any listener, installed or not.  The
    recreate runnable emits its two events outside the lock, so the
    bridge thread can get in between them: [RunPosted] runs the runnable
    to its end, [RunPostedFirst] up to its first event, and whatever
    comes before the next [RunPosted] comes between the two events. *)
Inductive Input :=
| CallStart (env : Env) (call : PluginCall)
| CallStop (call : PluginCall)
| CallIsListening (call : PluginCall)
| PopupResult (call : option PluginCall) (result : ActivityResult)
| RunPosted (native : NativeOutcome)
| RunPostedFirst (native : NativeOutcome)
| EngineError (listener : SpeechRecognitionListener) (error : Z)
| EngineResults (listener : SpeechRecognitionListener) (results : Bundle)
| EnginePartialResults (listener : SpeechRecognitionListener) (results : Bundle)
| EngineSegmentResults (listener : SpeechRecognitionListener) (results : Bundle)
| EngineEndOfSegmentedSession (listener : SpeechRecognitionListener)
| EngineBeginningOfSpeech (listener : SpeechRecognitionListener)
| EngineEndOfSpeech (listener : SpeechRecognitionListener).

Definition handle (i : Input) : Act unit :=
  match i with
  | CallStart env c => start env c
  | CallStop c => stop c
  | CallIsListening c => isListening c
  | PopupResult c result => listeningResult c result
  | RunPosted native => runPosted native
  | RunPostedFirst native => runRecreateFirst native
  | EngineError l error => onError l error
  | EngineResults l results => onResults l results
  | EnginePartialResults l results => onPartialResults l results
  | EngineSegmentResults l results => onSegmentResults l results
  | EngineEndOfSegmentedSession l => onEndOfSegmentedSession l
  | EngineBeginningOfSpeech l => onBeginningOfSpeech l
  | EngineEndOfSpeech l => onEndOfSpeech l
  end.

(** Once an exception has left a runnable the process is gone. *)
Definition step (w : World) (i : Input) : World :=
  if crashed w then w else exec (handle i) w.

Definition run (w : World) (inputs : list Input) : World :=
  fold_left step inputs w.

(* ===================================================================== *)
(** ** Reading the event log *)

Inductive Phase :=
| StartingListening
| Started
| StoppingListening
| ReadyForNextSession
| Stopped.

Definition phase_of_state (s : string) : option Phase :=
  if String.eqb s "startingListening" then Some StartingListening
  else if String.eqb s "started" then Some Started
  else if String.eqb s "stoppingListening" then Some StoppingListening
  else if String.eqb s "stopped" then Some Stopped
  else None.

Definition sessionOf (data : gmap string JSValue) : option Z :=
  match data !! "sessionId" with
  | Some (JLong n) => Some n
  | _ => None
  end.

(** The lifecycle phase and session id an emitted event announces, if it
    is a [listeningState] or [readyForNextSession] event. *)
Definition lifecycle (e : EventName * gmap string JSValue) : option (Phase * Z) :=
  match e with
  | (LISTENING_EVENT, data) =>
      match data !! "state", sessionOf data with
      | Some (JString s), Some n =>
          match phase_of_state s with
          | Some ph => Some (ph, n)
          | None => None
          end
      | _, _ => None
      end
  | (READY_FOR_NEXT_SESSION_EVENT, data) =>
      match sessionOf data with
      | Some n => Some (ReadyForNextSession, n)
      | None => None
      end
  | _ => None
  end.

Definition lifecycles (log : list (EventName * gmap string JSValue)) : list (Phase * Z) :=
  omap lifecycle log.

Definition announces (ph : Phase) (id : Z) (e : EventName * gmap string JSValue) : Prop :=
  lifecycle e = Some (ph, id).

Definition neutral (e : EventName * gmap string JSValue) : Prop :=
  lifecycle e = None.

Definition closing (id : Z) (e : EventName * gmap string JSValue) : Prop :=
  announces ReadyForNextSession id e \/ announces Stopped id e.

(** The error event the recreate runnable emits when it fails. *)
Definition recreate_failed (id : Z) (e : EventName * gmap string JSValue) : Prop :=
  fst e = ERROR_EVENT
  /\ snd e !! "code" = Some (JString "RECREATE_FAILED")
  /\ sessionOf (snd e) = Some id.

(** The first event of the recreate runnable of a session. *)
Definition recreated (id : Z) (e : EventName * gmap string JSValue) : Prop :=
  announces ReadyForNextSession id e \/ recreate_failed id e.

Definition announces_stopped (e : EventName * gmap string JSValue) : Prop :=
  exists id, lifecycle e = Some (Stopped, id).

(** The ids announced by the startingListening events of a log. *)
Definition startingIds (log : list (EventName * gmap string JSValue)) : list Z :=
  omap (fun a : Phase * Z =>
          match a with
          | (StartingListening, id) => Some id
          | _ => None
          end) (lifecycles log).

(* ===================================================================== *)
(** ** Calls and listeners of the scenarios *)

(** A platform on which [start] passes its preconditions, and the calls
    and listeners of the scenarios below. *)
Definition device : Env :=
  {| isRecognitionAvailable := true; getPermissionState := GRANTED; defaultLocale := "en_US" |}.

Definition plainCall (n : nat) : PluginCall :=
  {| callId := n; opt_language := None; opt_maxResults := None; opt_prompt := None;
     opt_partialResults := None; opt_popup := None; opt_allowForSilence := None |}.

Definition streamingCall (n : nat) : PluginCall :=
  {| callId := n; opt_language := None; opt_maxResults := None; opt_prompt := None;
     opt_partialResults := Some true; opt_popup := None; opt_allowForSilence := None |}.

Definition popupCall (n : nat) : PluginCall :=
  {| callId := n; opt_language := None; opt_maxResults := None; opt_prompt := None;
     opt_partialResults := None; opt_popup := Some true; opt_allowForSilence := None |}.

(** The listener the runnable of [beginListening] installs for a call. *)
Definition listenerOf (c : PluginCall) (id : Z) : SpeechRecognitionListener :=
  {| listenerSessionId := id;
     call := Some c;
     partialResults := default false (opt_partialResults c) |}.

(* ===================================================================== *)
(** ** Predicates on states and inputs *)

Definition listening_only_when_active (w : World) : Prop :=
  listening (plugin w) = true -> state (plugin w) <> IDLE.

(** The [status] field is "started" exactly on the started event, "stopped"
    exactly on the stopped event, and absent exactly on the
    startingListening and stoppingListening events. *)
Definition status_follows_state (data : gmap string JSValue) : Prop :=
  (data !! "status" = Some (JString "started") <-> data !! "state" = Some (JString "started"))
  /\ (data !! "status" = Some (JString "stopped") <-> data !! "state" = Some (JString "stopped"))
  /\ (data !! "status" = None
      <-> data !! "state" = Some (JString "startingListening")
          \/ data !! "state" = Some (JString "stoppingListening")).

Definition listening_event_ok (e : EventName * gmap string JSValue) : Prop :=
  fst e = LISTENING_EVENT -> status_follows_state (snd e).

(** Inputs that leave a popup session to itself: no further [start] that
    passes its preconditions and no engine error or final result tagged
    with the session's id. *)
Definition leaves_session_alone (id : Z) (i : Input) : bool :=
  match i with
  | CallStart env _ =>
      negb (isRecognitionAvailable env
            && PermissionState_eqb (getPermissionState env) GRANTED)
  | EngineError l _ | EngineResults l _ => negb (listenerSessionId l =? id)
  | _ => true
  end.

Definition is_stop (i : Input) : bool :=
  match i with
  | CallStop _ => true
  | _ => false
  end.

(** A popup session that has seen [k] calls of [stop]: only their
    runnables are posted, the id is current, each call has announced
    stoppingListening, and the state is STARTING before the first call
    and STOPPING after it. *)
Definition popup_pending (id : Z) (announced : list (Phase * Z)) (k : nat) (w : World) : Prop :=
  Forall (fun t => t = StopTask) (mainLooper w)
  /\ sessionId (plugin w) = id
  /\ lifecycles (emitted w) = announced ++ replicate k (StoppingListening, id)
  /\ state (plugin w) = match k with O => STARTING | S _ => STOPPING end.

(** A [start] call that gets past its preconditions. *)
Definition start_passes (w : World) (i : Input) : bool :=
  match i with
  | CallStart env _ =>
      negb (crashed w) && isRecognitionAvailable env
      && PermissionState_eqb (getPermissionState env) GRANTED
  | _ => false
  end.

(** How many [start] calls of a run get past their preconditions. *)
Fixpoint sessionsStarted (w : World) (inputs : list Input) : nat :=
  match inputs with
  | [] => 0
  | i :: rest => (if start_passes w i then 1 else 0) + sessionsStarted (step w i) rest
  end.

(* ===================================================================== *)
(** ** The protocol behind the methods

    What the order of events depends on: the log, the queue of the main
    thread, the session counter and the state.  Every step of the plugin
    is a short sequence of the moves of [Micro]. *)

Record Abs := mkAbs {
  a_log : list (EventName * gmap string JSValue);
  a_pending : list Task;
  a_current : Z;
  a_state : ListeningState
}.

Definition abs (w : World) : Abs :=
  {| a_log := emitted w;
     a_pending := mainLooper w;
     a_current := sessionId (plugin w);
     a_state := state (plugin w) |}.

Inductive Micro : Abs -> Abs -> Prop :=
| micro_noise l q s p e :
    neutral e ->
    Micro (mkAbs l q s p) (mkAbs (l ++ [e]) q s p)
| micro_start_popup l q s p :
    0 <= s < Long_MAX_VALUE ->
    Micro (mkAbs l q s p)
          (mkAbs (l ++ [(LISTENING_EVENT, startingPayload (s + 1))]) q (s + 1) STARTING)
| micro_start l q s p intent c pr :
    0 <= s < Long_MAX_VALUE ->
    Micro (mkAbs l q s p)
          (mkAbs (l ++ [(LISTENING_EVENT, startingPayload (s + 1))])
                 (q ++ [BeginTask intent c pr (s + 1)]) (s + 1) STARTING)
| micro_stop l q s p :
    Micro (mkAbs l q s p)
          (mkAbs (l ++ [(LISTENING_EVENT, userStopPayload s)]) (q ++ [StopTask]) s STOPPING)
| micro_begin l intent c pr id q s p :
    Micro (mkAbs l (BeginTask intent c pr id :: q) s p)
          (mkAbs (l ++ [(LISTENING_EVENT, startedPayload id)]) q s STARTED)
| micro_drop l t q s p :
    Micro (mkAbs l (t :: q) s p) (mkAbs l q s p)
| micro_finish l q s p reason errorCode :
    Micro (mkAbs l q s p)
          (mkAbs (l ++ [(LISTENING_EVENT, stoppingPayload s reason errorCode)])
                 (q ++ [RecreateTask s reason errorCode]) s IDLE)
| micro_finish_stopping l q s reason errorCode :
    Micro (mkAbs l q s STOPPING)
          (mkAbs l (q ++ [RecreateTask s reason errorCode]) s IDLE)
| micro_recreate l id reason errorCode q s p x :
    recreated id x ->
    Micro (mkAbs l (RecreateTask id reason errorCode :: q) s p)
          (mkAbs (l ++ [x]) (AnnounceTask id reason errorCode :: q) s p)
| micro_announce l id reason errorCode q s p :
    Micro (mkAbs l (AnnounceTask id reason errorCode :: q) s p)
          (mkAbs (l ++ [(LISTENING_EVENT, stoppedPayload id reason errorCode)]) q s p).

(* ===================================================================== *)
(** ** Invariants of the protocol *)

(** A property of every element of a list, given what precedes it. *)
Definition each_prefix {A} (Q : list A -> A -> Prop) (l : list A) : Prop :=
  forall pre e post, l = pre ++ e :: post -> Q pre e.

(** The id is the initial value of the counter, or a startingListening
    event of the id is in the log. *)
Definition known (l : list (EventName * gmap string JSValue)) (id : Z) : Prop :=
  id = 0 \/ Exists (announces StartingListening id) l.

Definition task_id (t : Task) : option Z :=
  match t with
  | BeginTask _ _ _ id => Some id
  | RecreateTask id _ _ => Some id
  | AnnounceTask id _ _ => Some id
  | StopTask => None
  end.

(** The id of the session whose closing events a runnable emits. *)
Definition closes (t : Task) : option Z :=
  match t with
  | RecreateTask id _ _ => Some id
  | AnnounceTask id _ _ => Some id
  | _ => None
  end.

Record Announced (a : Abs) : Prop := mkAnnounced {
  ann_log :
    each_prefix (fun pre e => forall ph id,
                     announces ph id e -> ph <> StartingListening -> known pre id)
                (a_log a);
  ann_current : known (a_log a) (a_current a);
  ann_pending :
    forall t id, In t (a_pending a) -> task_id t = Some id -> known (a_log a) id
}.

Record Closing (a : Abs) : Prop := mkClosing {
  cl_log :
    each_prefix (fun pre e => forall id,
                     closing id e -> Exists (announces StoppingListening id) pre)
                (a_log a);
  cl_state :
    a_state a = STOPPING ->
    Exists (announces StoppingListening (a_current a)) (a_log a);
  cl_pending :
    forall t id,
      In t (a_pending a) -> closes t = Some id ->
      Exists (announces StoppingListening id) (a_log a)
}.

Record Recreated (a : Abs) : Prop := mkRecreated {
  rc_log :
    each_prefix (fun pre e => forall id,
                     announces Stopped id e -> Exists (recreated id) pre)
                (a_log a);
  rc_pending :
    forall id reason errorCode,
      In (AnnounceTask id reason errorCode) (a_pending a) ->
      Exists (recreated id) (a_log a)
}.

Definition begins (id : Z) (t : Task) : Prop :=
  exists intent c pr, t = BeginTask intent c pr id.

Record Fifo (a : Abs) : Prop := mkFifo {
  ff_nonneg : 0 <= a_current a;
  ff_log :
    forall e ph id, In e (a_log a) -> announces ph id e -> id <= a_current a;
  ff_pending :
    forall t id, In t (a_pending a) -> task_id t = Some id -> id <= a_current a;
  ff_begin :
    each_prefix (fun pre t => forall id,
                     begins id t ->
                     (forall t', In t' pre -> closes t' <> Some id)
                     /\ ~ Exists (closing id) (a_log a))
                (a_pending a);
  ff_order :
    each_prefix (fun pre e => forall id,
                     announces Started id e -> ~ Exists (closing id) pre)
                (a_log a)
}.

Record Ordered (a : Abs) : Prop := mkOrdered {
  ord_announced : Announced a;
  ord_closing : Closing a;
  ord_recreated : Recreated a;
  ord_fifo : Fifo a
}.

(* ===================================================================== *)
(** ** Further predicates on states, inputs and events *)

(** A string that does not begin with a character [trim] removes. *)
Definition headOk (s : string) : bool :=
  match s with
  | EmptyString => true
  | String c _ => negb (isWhitespace c)
  end.


(** The plugin with the [readyForNext] field overwritten. *)
Definition with_readyForNext (v : bool) (w : World) : World :=
  {| plugin := set_readyForNext v (plugin w);
     mainLooper := mainLooper w;
     emitted := emitted w;
     replies := replies w;
     activities := activities w;
     crashed := crashed w |}.

(** A partial result delivered by the engine. *)
Definition is_partial (i : Input) : bool :=
  match i with
  | EnginePartialResults _ _ => true
  | _ => false
  end.

(** The runnable that runs does not fail to create a recognizer. *)
Definition creation_succeeds (i : Input) : bool :=
  match i with
  | RunPosted (CreateThrows _) => false
  | _ => true
  end.

(** No exception has left a runnable, and the recognizer field is set
    whenever the [listening] flag is. *)
Definition recognizer_while_listening (w : World) : Prop :=
  crashed w = false
  /\ (listening (plugin w) = true -> speechRecognizer (plugin w) <> None).

(** The reason and error code [finishSession] is called with: by
    [onResults], by the [catch] of the begin runnable, or by [onError]. *)
Definition close_ok (reason : string) (errorCode : option string) : Prop :=
  (reason = "results" /\ errorCode = None)
  \/ (reason = "error" /\ errorCode = Some "START_FAILED")
  \/ (exists n, reason = errorReason n /\ errorCode = Some (getErrorCode n)).

(** A pending recreate runnable carries such a reason and error code. *)
Definition task_ok (t : Task) : Prop :=
  match t with
  | RecreateTask _ reason errorCode => close_ok reason errorCode
  | AnnounceTask _ reason errorCode => close_ok reason errorCode
  | _ => True
  end.

(** The [reason] and [errorCode] fields of an event that closes a
    session. *)
Definition closing_fields (data : gmap string JSValue) : Prop :=
  (data !! "reason" = Some (JString "results") /\ data !! "errorCode" = None)
  \/ (data !! "reason" = Some (JString "silence")
      /\ (data !! "errorCode" = Some (JString "NO_MATCH")
          \/ data !! "errorCode" = Some (JString "SPEECH_TIMEOUT")))
  \/ (data !! "reason" = Some (JString "error")
      /\ exists c, data !! "errorCode" = Some (JString c)
                   /\ c <> "NO_MATCH" /\ c <> "SPEECH_TIMEOUT").

(** The fields of an event that opens a session, and of the
    stoppingListening event of [stop]. *)
Definition opening_fields (data : gmap string JSValue) : Prop :=
  data !! "reason" = Some (JString "userStart") /\ data !! "errorCode" = None.

Definition user_stop_fields (data : gmap string JSValue) : Prop :=
  data !! "reason" = Some (JString "userStop") /\ data !! "errorCode" = None.

(** What the [reason] and [errorCode] fields of a listeningState event
    may be, by its [state] field. *)
Definition reason_fields (data : gmap string JSValue) : Prop :=
  match data !! "state" with
  | Some (JString s) =>
      match phase_of_state s with
      | Some StartingListening | Some Started => opening_fields data
      | Some StoppingListening => closing_fields data \/ user_stop_fields data
      | Some Stopped => closing_fields data
      | _ => False
      end
  | _ => False
  end.

(** Every listeningState event of the log has such fields, and so will
    the events of the pending runnables. *)
Definition reasons_ok (w : World) : Prop :=
  (forall e, In e (emitted w) -> fst e = LISTENING_EVENT -> reason_fields (snd e))
  /\ (forall t, In t (mainLooper w) -> task_ok t).

(** The fields of each kind of event. *)
Definition schema (e : EventName * gmap string JSValue) : Prop :=
  match fst e with
  | LISTENING_EVENT =>
      exists ph id, lifecycle e = Some (ph, id)
  | READY_FOR_NEXT_SESSION_EVENT =>
      exists id, snd e = put "sessionId" (JLong id) ∅
  | ERROR_EVENT =>
      exists code message id,
        snd e = put "sessionId" (JLong id)
                  (putString "message" message (put "code" (JString code) ∅))
  | PARTIAL_RESULTS_EVENT | SEGMENT_RESULTS_EVENT =>
      exists matches, snd e = put "matches" (JArray matches) ∅
  | END_OF_SEGMENT_EVENT => snd e = ∅
  end.

(** *** The transition table of the state field *)

(** The begin runnable is next and the native side lets it through. *)
Definition begins_listening (w : World) (i : Input) : bool :=
  match i, mainLooper w with
  | RunPosted NativeOk, BeginTask _ _ _ _ :: _ => true
  | _, _ => false
  end.

(** A call of [stop] outside IDLE. *)
Definition stops (w : World) (i : Input) : bool :=
  is_stop i && negb (ListeningState_eqb (state (plugin w)) IDLE).

(** An error or a final result from a listener of the current session,
    or the begin runnable of the current session failing. *)
Definition closes_current (w : World) (i : Input) : bool :=
  match i with
  | EngineError l _ | EngineResults l _ =>
      listenerSessionId l =? sessionId (plugin w)
  | RunPosted (CreateThrows _ | StartListeningThrows _) =>
      match mainLooper w with
      | BeginTask _ _ _ id :: _ => id =? sessionId (plugin w)
      | _ => false
      end
  | _ => false
  end.

(** The state after a step, by the state and the queue before it. *)
Definition next_state (w : World) (i : Input) : ListeningState :=
  if start_passes w i then STARTING
  else if crashed w then state (plugin w)
  else if begins_listening w i then STARTED
  else if stops w i then STOPPING
  else if closes_current w i then IDLE
  else state (plugin w).

(** The platform lets [start] through. *)
Definition passes (env : Env) : Prop :=
  isRecognitionAvailable env = true /\ getPermissionState env = GRANTED.

(** The main thread is idle. *)
Definition quiet (w : World) : Prop :=
  crashed w = false /\ mainLooper w = [].

(** The intent [start] and [beginListening] build from the options of a
    call. *)
Definition startIntent (env : Env) (call : PluginCall) : Intent :=
  {| EXTRA_LANGUAGE := default (defaultLocale env) (opt_language call);
     EXTRA_MAX_RESULTS := default MAX_RESULTS (opt_maxResults call);
     EXTRA_PARTIAL_RESULTS := default false (opt_partialResults call);
     DICTATION_MODE := default false (opt_partialResults call);
     EXTRA_SEGMENTED_SESSION :=
       if 0 <? default 0 (opt_allowForSilence call)
       then Some (default 0 (opt_allowForSilence call)) else None;
     EXTRA_PROMPT := opt_prompt call |}.

(** The plugin after a session has been closed and the recognizer
    recreated. *)
Definition restedPlugin (id : Z) (previous : list (option string)) : Plugin :=
  {| speechRecognizer :=
       Some (mkRecognizer
               {| listenerSessionId := id; call := None; partialResults := false |}
               None);
     listening := false;
     previousPartialResults := previous;
     state := IDLE;
     sessionId := id;
     readyForNext := true |}.

(** The plugin fields after [finishSession] has run for the current
    session. *)
Definition finished (p : Plugin) : Plugin :=
  set_readyForNext false (set_listening false (set_state IDLE (set_speechRecognizer None p))).

(** What [finishSession] emits for the current session. *)
Definition stoppingUnlessAnnounced (p : Plugin) (reason : string) (errorCode : option string)
  : list (EventName * gmap string JSValue) :=
  if ListeningState_eqb (state p) STOPPING then []
  else [(LISTENING_EVENT, stoppingPayload (sessionId p) reason errorCode)].

(** How many runs of the main thread a runnable can take: the begin
    runnable may post the recreate runnable. *)
Definition runsNeeded (t : Task) : nat :=
  match t with
  | BeginTask _ _ _ _ => 2
  | _ => 1
  end.

(** The same for a queue. *)
Definition runsNeededAll (q : list Task) : nat :=
  foldr (fun t n => (runsNeeded t + n)%nat) 0%nat q.

(** The stopped event a runnable still has to emit. *)
Definition owes (t : Task) (e : EventName * gmap string JSValue) : Prop :=
  match t with
  | RecreateTask id reason errorCode | AnnounceTask id reason errorCode =>
      e = (LISTENING_EVENT, stoppedPayload id reason errorCode)
  | _ => False
  end.

(* ===================================================================== *)
(** * Properties *)

(** ** Strings *)

Lemma endsWith_spec (s t : string) :
  endsWith s t = true <-> exists p, s = p +:+ t.
Proof.
  induction s as [|c s IH]; cbn [endsWith].
  - rewrite orb_false_r, String.eqb_eq. split.
    + intros ->. now exists "".
    + intros [p Hp]. destruct p; cbn in Hp; [easy | discriminate].
  - rewrite orb_true_iff, String.eqb_eq, IH. split.
    + intros [Heq | [p ->]].
      * now exists "".
      * now exists (String c p).
    + intros [[|c' p] Hp]; cbn in Hp.
      * now left.
      * right. injection Hp as _ ->. now exists p.
Qed.

Lemma isEmpty_spec (s : string) : isEmpty s = true <-> s = "".
Proof. destruct s; cbn; split; congruence. Qed.

(** ** Unfolding the monad *)

Ltac unfold_act :=
  unfold exec, bind, ret, read, update, notifyListeners, post, answer,
    startActivityForResult, uncaught, when in *.

(** [finishSession] with an id that is not the current one does nothing. *)
Lemma finishSession_stale (w : World) (id : Z) (reason : string) (errorCode : option string) :
  id <> sessionId (plugin w) ->
  finishSession id reason errorCode w = (tt, w).
Proof.
  intros Hid. unfold finishSession; unfold_act.
  destruct (Z.eqb_spec id (sessionId (plugin w))); [contradiction | reflexivity].
Qed.

(** [finishSession] with the current id: the stopping event unless the
    state is already STOPPING, the recognizer dropped, the state IDLE,
    and the recreate runnable posted. *)
Lemma finishSession_current (w : World) (reason : string) (errorCode : option string) :
  exec (finishSession (sessionId (plugin w)) reason errorCode) w
  = {| plugin :=
         {| speechRecognizer := None;
            listening := false;
            previousPartialResults := previousPartialResults (plugin w);
            state := IDLE;
            sessionId := sessionId (plugin w);
            readyForNext := false |};
       mainLooper := mainLooper w ++ [RecreateTask (sessionId (plugin w)) reason errorCode];
       emitted :=
         emitted w
         ++ (if ListeningState_eqb (state (plugin w)) STOPPING then []
             else [(LISTENING_EVENT, stoppingPayload (sessionId (plugin w)) reason errorCode)]);
       replies := replies w;
       activities := activities w;
       crashed := crashed w |}.
Proof.
  unfold finishSession; unfold_act. rewrite Z.eqb_refl. cbn.
  destruct (ListeningState_eqb (state (plugin w)) STOPPING); cbn;
    rewrite ?app_nil_r; reflexivity.
Qed.

(** ** Case analysis of one step *)

Arguments startingPayload : simpl never.
Arguments userStopPayload : simpl never.
Arguments startedPayload : simpl never.
Arguments startFailedPayload : simpl never.
Arguments stoppingPayload : simpl never.
Arguments readyPayload : simpl never.
Arguments recreateFailedPayload : simpl never.
Arguments stoppedPayload : simpl never.
Arguments errorPayload : simpl never.
Arguments matchesPayload : simpl never.
Arguments wrap64 : simpl never.
Arguments getErrorCode : simpl never.
Arguments getErrorText : simpl never.
Arguments errorReason : simpl never.
Arguments buildMatchesWithUnstableText : simpl never.
Arguments Integer_toString : simpl never.

Ltac unfold_methods :=
  unfold handle, start, beginListening, stop, stopListening, isListening,
    listeningResult, runPosted, runRecreateFirst, runTask, runBegin, runStop,
    runRecreate, recreateRecognizer, announceStopped,
    onError, onResults, onPartialResults, onSegmentResults,
    onEndOfSegmentedSession, onBeginningOfSpeech, onEndOfSpeech,
    finishSession in *;
  unfold_act.

Ltac innermost x :=
  lazymatch x with
  | context [match _ with _ => _ end] => fail
  | _ => idtac
  end.

Ltac split_cases :=
  repeat (cbn in *;
          match goal with
          | |- context [negb ?b] => innermost b; destruct b eqn:?
          | |- context [match ?x with _ => _ end] => innermost x; destruct x eqn:?
          end);
  cbn in *;
  repeat match goal with
         | H : (?a =? ?b) = true |- _ => apply Z.eqb_eq in H
         | H : (?a =? ?b) = false |- _ => apply Z.eqb_neq in H
         end.

(** Evaluation of a concrete run, with the payloads kept folded. *)
Ltac run_scenario :=
  cbv -[startingPayload userStopPayload startedPayload startFailedPayload
        stoppingPayload readyPayload recreateFailedPayload stoppedPayload
        errorPayload matchesPayload put];
  try reflexivity.

Lemma run_app (w : World) (xs ys : list Input) :
  run w (xs ++ ys) = run (run w xs) ys.
Proof. apply fold_left_app. Qed.

Lemma run_invariant (P : World -> Prop) :
  (forall w i, P w -> P (step w i)) ->
  forall inputs w, P w -> P (run w inputs).
Proof.
  intros Hstep inputs. induction inputs as [|i inputs IH]; intros w Hw; cbn.
  - exact Hw.
  - apply IH, Hstep, Hw.
Qed.

(** ** What each payload announces *)

Lemma lifecycle_starting (id : Z) :
  lifecycle (LISTENING_EVENT, startingPayload id) = Some (StartingListening, id).
Proof. reflexivity. Qed.

Lemma lifecycle_userStop (id : Z) :
  lifecycle (LISTENING_EVENT, userStopPayload id) = Some (StoppingListening, id).
Proof. reflexivity. Qed.

Lemma lifecycle_started (id : Z) :
  lifecycle (LISTENING_EVENT, startedPayload id) = Some (Started, id).
Proof. reflexivity. Qed.

Lemma lifecycle_stopping (id : Z) (reason : string) (errorCode : option string) :
  lifecycle (LISTENING_EVENT, stoppingPayload id reason errorCode)
  = Some (StoppingListening, id).
Proof. destruct errorCode; reflexivity. Qed.

Lemma lifecycle_stopped (id : Z) (reason : string) (errorCode : option string) :
  lifecycle (LISTENING_EVENT, stoppedPayload id reason errorCode) = Some (Stopped, id).
Proof. destruct errorCode; reflexivity. Qed.

Lemma lifecycle_ready (id : Z) :
  lifecycle (READY_FOR_NEXT_SESSION_EVENT, readyPayload id) = Some (ReadyForNextSession, id).
Proof. reflexivity. Qed.

Lemma lifecycle_error (data : gmap string JSValue) :
  lifecycle (ERROR_EVENT, data) = None.
Proof. reflexivity. Qed.

Lemma lifecycle_partial (data : gmap string JSValue) :
  lifecycle (PARTIAL_RESULTS_EVENT, data) = None.
Proof. reflexivity. Qed.

Lemma lifecycle_segment (data : gmap string JSValue) :
  lifecycle (SEGMENT_RESULTS_EVENT, data) = None.
Proof. reflexivity. Qed.

Lemma lifecycle_endOfSegment (data : gmap string JSValue) :
  lifecycle (END_OF_SEGMENT_EVENT, data) = None.
Proof. reflexivity. Qed.

Lemma lifecycles_snoc (log : list (EventName * gmap string JSValue))
    (e : EventName * gmap string JSValue) :
  lifecycles (log ++ [e])
  = lifecycles log ++ match lifecycle e with Some a => [a] | None => [] end.
Proof.
  unfold lifecycles. rewrite omap_app. cbn. destruct (lifecycle e); reflexivity.
Qed.

Create Rewrite HintDb announce.
#[export] Hint Rewrite lifecycles_snoc lifecycle_starting lifecycle_userStop
  lifecycle_started lifecycle_stopping lifecycle_stopped lifecycle_ready
  lifecycle_error lifecycle_partial lifecycle_segment lifecycle_endOfSegment
  @app_nil_r : announce.

(** ** The session counter in one step *)

Lemma wrap64_in_range (n : Z) :
  Long_MIN_VALUE <= n <= Long_MAX_VALUE -> wrap64 n = n.
Proof.
  unfold Long_MIN_VALUE, Long_MAX_VALUE, wrap64.
  change (2 ^ 63) with 9223372036854775808.
  change (2 ^ 64) with 18446744073709551616.
  intros Hn. rewrite Z.mod_small by lia. lia.
Qed.

Lemma seqZ_one (m : Z) : seqZ m 1 = [m].
Proof. unfold seqZ. cbn. f_equal; lia. Qed.

Lemma session_id_step (w : World) (i : Input) :
  0 <= sessionId (plugin w) < Long_MAX_VALUE ->
  sessionId (plugin (step w i))
  = sessionId (plugin w) + (if start_passes w i then 1 else 0)
  /\ startingIds (emitted (step w i))
     = startingIds (emitted w)
       ++ (if start_passes w i then [sessionId (plugin w) + 1] else []).
Proof.
  intros Hid.
  assert (Hwrap : wrap64 (sessionId (plugin w) + 1) = sessionId (plugin w) + 1).
  { apply wrap64_in_range. unfold Long_MIN_VALUE, Long_MAX_VALUE in *.
    change (2 ^ 63) with 9223372036854775808 in *. lia. }
  unfold step, start_passes, startingIds.
  destruct (crashed w) eqn:Hc.
  { destruct i; cbn; rewrite ?app_nil_r; split; lia || reflexivity. }
  destruct i; unfold_methods; split_cases;
    autorewrite with announce; rewrite ?omap_app; cbn; rewrite ?app_nil_r, ?Hwrap;
    split; solve [reflexivity | lia].
Qed.

(** ** Scenarios *)

(** Silence: the engine reports NO_MATCH for the running session. *)
Example scenario_silence :
  emitted (run initialWorld
             [CallStart device (plainCall 1); RunPosted NativeOk;
              EngineError (listenerOf (plainCall 1) 1) ERROR_NO_MATCH;
              RunPosted NativeOk])
  = [(LISTENING_EVENT, startingPayload 1);
     (LISTENING_EVENT, startedPayload 1);
     (ERROR_EVENT, errorPayload "NO_MATCH" "No match" 1);
     (LISTENING_EVENT, stoppingPayload 1 "silence" (Some "NO_MATCH"));
     (READY_FOR_NEXT_SESSION_EVENT, readyPayload 1);
     (LISTENING_EVENT, stoppedPayload 1 "silence" (Some "NO_MATCH"))].
Proof. run_scenario. Qed.

(** Streaming: two partial results, one repeated, then the final result. *)
Example scenario_streaming :
  emitted (run initialWorld
             [CallStart device (streamingCall 1); RunPosted NativeOk;
              EnginePartialResults (listenerOf (streamingCall 1) 1)
                (mkBundle (Some [Some "hello"]) None);
              EnginePartialResults (listenerOf (streamingCall 1) 1)
                (mkBundle (Some [Some "hello"]) None);
              EnginePartialResults (listenerOf (streamingCall 1) 1)
                (mkBundle (Some [Some "hello"]) (Some " wor"));
              EngineResults (listenerOf (streamingCall 1) 1)
                (mkBundle (Some [Some "hello world"]) None);
              RunPosted NativeOk])
  = [(LISTENING_EVENT, startingPayload 1);
     (LISTENING_EVENT, startedPayload 1);
     (PARTIAL_RESULTS_EVENT, matchesPayload [Some "hello"]);
     (PARTIAL_RESULTS_EVENT, matchesPayload [Some "hello wor"]);
     (PARTIAL_RESULTS_EVENT, matchesPayload [Some "hello world"]);
     (LISTENING_EVENT, stoppingPayload 1 "results" None);
     (READY_FOR_NEXT_SESSION_EVENT, readyPayload 1);
     (LISTENING_EVENT, stoppedPayload 1 "results" None)].
Proof. run_scenario. Qed.

(** The native start fails: START_FAILED, then the session is closed. *)
Example scenario_start_failed :
  emitted (run initialWorld
             [CallStart device (plainCall 1);
              RunPosted (StartListeningThrows (Some "busy"));
              RunPosted NativeOk])
  = [(LISTENING_EVENT, startingPayload 1);
     (ERROR_EVENT, startFailedPayload (Some "busy") 1);
     (LISTENING_EVENT, stoppingPayload 1 "error" (Some "START_FAILED"));
     (READY_FOR_NEXT_SESSION_EVENT, readyPayload 1);
     (LISTENING_EVENT, stoppedPayload 1 "error" (Some "START_FAILED"))].
Proof. run_scenario. Qed.

(** A second callback of a session whose id is still the current one
    passes the guard of [finishSession] again: the session is announced
    as stopping and stopped a second time. *)
Example scenario_second_callback :
  lifecycles
    (emitted (run initialWorld
                [CallStart device (plainCall 1); RunPosted NativeOk;
                 EngineResults (listenerOf (plainCall 1) 1)
                   (mkBundle (Some [Some "hello"]) None);
                 RunPosted NativeOk;
                 EngineError (listenerOf (plainCall 1) 1) ERROR_CLIENT;
                 RunPosted NativeOk]))
  = [(StartingListening, 1); (Started, 1);
     (StoppingListening, 1); (ReadyForNextSession, 1); (Stopped, 1);
     (StoppingListening, 1); (ReadyForNextSession, 1); (Stopped, 1)].
Proof. vm_compute. reflexivity. Qed.

(** ** C1: callbacks of a superseded session *)

(** What a stale [onError] does on any state: one error event, the
    rejection of its call when it does not stream, nothing else. *)
Lemma stale_onError_effect (w : World) (l : SpeechRecognitionListener) (error : Z) :
  listenerSessionId l <> sessionId (plugin w) ->
  let w' := exec (onError l error) w in
  plugin w' = plugin w
  /\ mainLooper w' = mainLooper w
  /\ emitted w'
     = emitted w
       ++ [(ERROR_EVENT, errorPayload (getErrorCode error) (getErrorText error)
                           (listenerSessionId l))].
Proof.
  intros Hstale. unfold onError, finishSession; unfold_act. cbn.
  destruct (Z.eqb_spec (listenerSessionId l) (sessionId (plugin w))); [contradiction|].
  destruct (call l); [destruct (partialResults l)|]; cbn; repeat split; reflexivity.
Qed.

(** A stale [onResults] changes no field and posts nothing either; it
    emits a partialResults event when its call streams, and otherwise
    resolves its call. *)
Lemma stale_onResults_effect (w : World) (l : SpeechRecognitionListener) (results : Bundle) :
  listenerSessionId l <> sessionId (plugin w) ->
  let w' := exec (onResults l results) w in
  plugin w' = plugin w
  /\ mainLooper w' = mainLooper w
  /\ emitted w'
     = emitted w
       ++ match call l with
          | Some _ =>
              if partialResults l
              then [(PARTIAL_RESULTS_EVENT,
                     matchesPayload (JSArray_of (buildMatchesWithUnstableText results)))]
              else []
          | None => []
          end.
Proof.
  intros Hstale. unfold onResults, finishSession; unfold_act.
  destruct (call l); [destruct (partialResults l)|]; cbn;
    destruct (Z.eqb_spec (listenerSessionId l) (sessionId (plugin w)));
    try contradiction; cbn; rewrite ?app_nil_r; repeat split; reflexivity.
Qed.

(** C1, where the code departs from it.  Session 1 is listening; [start] is called
    again, which makes 2 the current session id while the recognizer of
    session 1 is still installed; that recognizer then reports a network
    error.  The stale callback emits an error event tagged with session 1
    and rejects the call of session 1.  A stale [onResults] of a streaming
    session likewise emits a partialResults event. *)
Theorem stale_callback_still_emits :
  let w := run initialWorld
             [CallStart device (plainCall 1); RunPosted NativeOk; CallStart device (plainCall 2)] in
  let stale := listenerOf (plainCall 1) 1 in
  let w' := step w (EngineError stale ERROR_NETWORK) in
  let v := run initialWorld
             [CallStart device (streamingCall 1); RunPosted NativeOk;
              CallStart device (streamingCall 2)] in
  let staleStreaming := listenerOf (streamingCall 1) 1 in
  let v' := step v (EngineResults staleStreaming (mkBundle (Some [Some "hello"]) None)) in
  sessionId (plugin w) = 2
  /\ (recognitionListener <$> speechRecognizer (plugin w)) = Some stale
  /\ listenerSessionId stale = 1
  /\ emitted w' = emitted w ++ [(ERROR_EVENT, errorPayload "NETWORK" "Network error" 1)]
  /\ replies w' = replies w ++ [(plainCall 1, Reject (Text (Some "Network error")))]
  /\ sessionId (plugin v) = 2
  /\ (recognitionListener <$> speechRecognizer (plugin v)) = Some staleStreaming
  /\ emitted v' = emitted v ++ [(PARTIAL_RESULTS_EVENT, matchesPayload [Some "hello"])].
Proof.
  cbv zeta. split_and!; run_scenario.
Qed.

(** ** C2: when a session gets its stopped event *)

Lemma step_nothing_posted (w : World) (native : NativeOutcome) :
  mainLooper w = [] -> step w (RunPosted native) = w.
Proof.
  intros Hq. unfold step. destruct (crashed w); [reflexivity|].
  unfold handle, runPosted, exec. rewrite Hq. reflexivity.
Qed.

Lemma run_nothing_posted (w : World) (native : NativeOutcome) (n : nat) :
  mainLooper w = [] -> run w (repeat (RunPosted native) n) = w.
Proof.
  intros Hq. induction n as [|n IH]; cbn.
  - reflexivity.
  - rewrite step_nothing_posted by exact Hq. exact IH.
Qed.

Lemma run_crashed (w : World) (inputs : list Input) :
  crashed w = true -> run w inputs = w.
Proof.
  intros Hc. induction inputs as [|i inputs IH]; cbn.
  - reflexivity.
  - unfold step at 2. rewrite Hc. exact IH.
Qed.

Lemma not_stopped_by_lifecycle (e : EventName * gmap string JSValue) (a : option (Phase * Z)) :
  lifecycle e = a ->
  (forall id, a <> Some (Stopped, id)) ->
  ~ announces_stopped e.
Proof. intros He Ha [id Hid]. rewrite He in Hid. exact (Ha id Hid). Qed.

Ltac not_stopped :=
  cbv beta;
  match goal with
  | |- ~ announces_stopped (LISTENING_EVENT, stoppingPayload ?id ?r ?c) =>
      apply (not_stopped_by_lifecycle _ _ (lifecycle_stopping id r c)); intros; discriminate
  | |- ~ announces_stopped (READY_FOR_NEXT_SESSION_EVENT, readyPayload ?id) =>
      apply (not_stopped_by_lifecycle _ _ (lifecycle_ready id)); intros; discriminate
  | |- ~ announces_stopped (?name, ?data) =>
      apply (not_stopped_by_lifecycle (name, data) None eq_refl); intros; discriminate
  end.

(** A callback that carries the current id finishes the session. *)
Lemma current_callback_finishes (w : World) (l : SpeechRecognitionListener) (i : Input) :
  crashed w = false ->
  listenerSessionId l = sessionId (plugin w) ->
  (exists error, i = EngineError l error) \/ (exists results, i = EngineResults l results) ->
  exists before reason errorCode,
    emitted (step w i) = emitted w ++ before
    /\ Forall (fun e => ~ announces_stopped e) before
    /\ mainLooper (step w i)
       = mainLooper w ++ [RecreateTask (sessionId (plugin w)) reason errorCode]
    /\ state (plugin (step w i)) = IDLE
    /\ sessionId (plugin (step w i)) = sessionId (plugin w)
    /\ crashed (step w i) = false.
Proof.
  intros Hc Hl Hi. unfold step. rewrite Hc.
  destruct Hi as [[error ->] | [results ->]];
    unfold_methods; cbn; rewrite ?Hl, ?Z.eqb_refl; cbn;
    split_cases; try congruence; rewrite <- ?app_assoc; cbn;
    do 3 eexists;
    (split_and!;
     [first [reflexivity | exact (eq_sym (app_nil_r _))]
     | | reflexivity | reflexivity | reflexivity | assumption]);
    repeat (apply List.Forall_cons; [not_stopped|]); apply List.Forall_nil.
Qed.

(** The recreate runnable emits the ready event, or the error event when
    the recreation fails, and then the stopped event. *)
Lemma recreate_emits_stopped (w : World) (native : NativeOutcome)
    (id : Z) (reason : string) (errorCode : option string) (rest : list Task) :
  crashed w = false ->
  mainLooper w = RecreateTask id reason errorCode :: rest ->
  let w' := step w (RunPosted native) in
  exists e,
    emitted w' = emitted w ++ [e; (LISTENING_EVENT, stoppedPayload id reason errorCode)]
    /\ ~ announces_stopped e
    /\ mainLooper w' = rest
    /\ state (plugin w') = state (plugin w)
    /\ sessionId (plugin w') = sessionId (plugin w)
    /\ crashed w' = false.
Proof.
  intros Hc Hq. unfold step. rewrite Hc. unfold_methods. rewrite Hq.
  destruct native; cbn; rewrite <- ?app_assoc; cbn;
    eexists; (split_and!; [reflexivity | | reflexivity | reflexivity | reflexivity | assumption]);
    not_stopped.
Qed.

(** C2, amended.  An engine error or final result that carries the
    current session id makes the controller finish the session: once the
    posted recreate runnable has run, exactly one stopped event has been
    emitted, it is the last event and carries that id (also when the
    recreation fails), the state is IDLE and nothing is pending.  [stop]
    on its own only announces stoppingListening and posts the native
    stop request: however long the main thread runs afterwards, nothing
    else is announced. *)
Theorem stopped_only_through_finishSession (w : World) (native : NativeOutcome) :
  crashed w = false ->
  mainLooper w = [] ->
  let id := sessionId (plugin w) in
  (forall l i,
      listenerSessionId l = id ->
      (exists error, i = EngineError l error) \/ (exists results, i = EngineResults l results) ->
      let w' := run w [i; RunPosted native] in
      exists before reason errorCode,
        emitted w'
        = emitted w ++ before ++ [(LISTENING_EVENT, stoppedPayload id reason errorCode)]
        /\ Forall (fun e => ~ announces_stopped e) before
        /\ state (plugin w') = IDLE
        /\ mainLooper w' = [])
  /\ (forall c n,
        state (plugin w) <> IDLE ->
        let w' := run w (CallStop c :: repeat (RunPosted native) n) in
        lifecycles (emitted w') = lifecycles (emitted w) ++ [(StoppingListening, id)]).
Proof.
  intros Hc Hq id. split.
  - intros l i Hl Hi w'. subst w' id. cbn [run fold_left].
    destruct (current_callback_finishes w l i Hc Hl Hi)
      as (before & reason & errorCode & Hlog1 & Hbefore & Hq1 & Hst1 & Hid1 & Hc1).
    rewrite Hq in Hq1. cbn in Hq1.
    destruct (recreate_emits_stopped (step w i) native _ _ _ _ Hc1 Hq1)
      as (e & Hlog2 & He & Hq2 & Hst2 & Hid2 & Hc2).
    exists (before ++ [e]), reason, errorCode. split_and!.
    + rewrite Hlog2, Hlog1, <- !app_assoc. reflexivity.
    + apply Forall_app. split; [exact Hbefore|]. apply List.Forall_cons; [exact He|].
      apply List.Forall_nil.
    + rewrite Hst2. exact Hst1.
    + exact Hq2.
  - intros c n Hst w'. subst w' id. cbn [run fold_left].
    set (w1 := step w (CallStop c)).
    assert (H1 : lifecycles (emitted w1)
                 = lifecycles (emitted w) ++ [(StoppingListening, sessionId (plugin w))]
                 /\ mainLooper w1 = [StopTask]).
    { subst w1. unfold step. rewrite Hc. unfold_methods.
      destruct (state (plugin w)); [contradiction | | |]; cbn; rewrite Hq;
        autorewrite with announce; split; reflexivity. }
    destruct H1 as (Hlog1 & Hq1).
    destruct n as [|n]; [exact Hlog1|]. cbn [repeat fold_left].
    set (w2 := step w1 (RunPosted native)).
    assert (H2 : emitted w2 = emitted w1 /\ (crashed w2 = true \/ mainLooper w2 = [])).
    { subst w2. unfold step. destruct (crashed w1) eqn:Hc1; [auto|].
      unfold_methods. rewrite Hq1. split_cases; auto. }
    destruct H2 as (Hlog2 & [Hc2 | Hq2]).
    + change (fold_left step ?xs ?v) with (run v xs).
      rewrite run_crashed by exact Hc2. rewrite Hlog2. exact Hlog1.
    + change (fold_left step ?xs ?v) with (run v xs).
      rewrite run_nothing_posted by exact Hq2. rewrite Hlog2. exact Hlog1.
Qed.

Lemma stopped_only_through_finishSession_witness :
  let w := run initialWorld [CallStart device (plainCall 1); RunPosted NativeOk] in
  let w' := run w [EngineError (listenerOf (plainCall 1) 1) ERROR_NO_MATCH; RunPosted NativeOk] in
  exists before reason errorCode,
    emitted w' = emitted w ++ before ++ [(LISTENING_EVENT, stoppedPayload 1 reason errorCode)]
    /\ Forall (fun e => ~ announces_stopped e) before
    /\ state (plugin w') = IDLE
    /\ mainLooper w' = [].
Proof.
  cbv zeta.
  apply (proj1 (stopped_only_through_finishSession
                  (run initialWorld [CallStart device (plainCall 1); RunPosted NativeOk])
                  NativeOk eq_refl eq_refl)
               (listenerOf (plainCall 1) 1)
               (EngineError (listenerOf (plainCall 1) 1) ERROR_NO_MATCH)).
  - reflexivity.
  - left. exists ERROR_NO_MATCH. reflexivity.
Defined.

(** C2, counterexample: session 1 reaches STARTING and STARTED, [stop] is
    called and its posted runnable runs, and the engine never calls back.
    No stopped event has been emitted, nothing is pending, and running
    the main thread any longer changes nothing. *)
Lemma stop_without_callback_never_stops :
  let w := run initialWorld
             [CallStart device (plainCall 1); RunPosted NativeOk;
              CallStop (plainCall 2); RunPosted NativeOk] in
  lifecycles (emitted w)
  = [(StartingListening, 1); (Started, 1); (StoppingListening, 1)]
  /\ state (plugin w) = STOPPING
  /\ mainLooper w = []
  /\ crashed w = false
  /\ forall n native, run w (repeat (RunPosted native) n) = w.
Proof.
  cbv zeta. split_and!.
  - vm_compute. reflexivity.
  - run_scenario.
  - run_scenario.
  - run_scenario.
  - intros n native. apply run_nothing_posted. run_scenario.
Qed.

(** ** C3: the order of the lifecycle events *)

Lemma ListeningState_eqb_eq (a b : ListeningState) :
  ListeningState_eqb a b = true <-> a = b.
Proof. destruct a, b; cbn; split; congruence. Qed.

Lemma recreate_failed_payload (message : option string) (id : Z) :
  recreate_failed id (ERROR_EVENT, recreateFailedPayload message id).
Proof. destruct message; repeat split. Qed.

Ltac neutral_event :=
  unfold neutral;
  first [ apply lifecycle_error | apply lifecycle_partial
        | apply lifecycle_segment | apply lifecycle_endOfSegment ].

(** The move that ends in a given state, read off its last event. *)
Ltac micro_move :=
  lazymatch goal with
  | |- Micro _ (mkAbs (_ ++ [(LISTENING_EVENT, startingPayload _)])
                      (_ ++ [BeginTask _ _ _ _]) _ _) =>
      apply micro_start; assumption
  | |- Micro _ (mkAbs (_ ++ [(LISTENING_EVENT, startingPayload _)]) _ _ _) =>
      apply micro_start_popup; assumption
  | |- Micro _ (mkAbs (_ ++ [(LISTENING_EVENT, userStopPayload _)]) _ _ _) =>
      apply micro_stop
  | |- Micro _ (mkAbs (_ ++ [(LISTENING_EVENT, startedPayload _)]) _ _ _) =>
      apply micro_begin
  | |- Micro _ (mkAbs (_ ++ [(LISTENING_EVENT, stoppingPayload _ _ _)]) _ _ _) =>
      apply micro_finish
  | |- Micro _ (mkAbs (_ ++ [(LISTENING_EVENT, stoppedPayload _ _ _)]) _ _ _) =>
      apply micro_announce
  | |- Micro _ (mkAbs (_ ++ [(READY_FOR_NEXT_SESSION_EVENT, readyPayload _)]) _ _ _) =>
      apply micro_recreate; left; apply lifecycle_ready
  | |- Micro _ (mkAbs (_ ++ [(ERROR_EVENT, recreateFailedPayload _ _)]) _ _ _) =>
      apply micro_recreate; right; apply recreate_failed_payload
  | |- Micro _ (mkAbs (_ ++ [_]) _ _ _) =>
      apply micro_noise; neutral_event
  | |- Micro _ (mkAbs _ (_ ++ [RecreateTask _ _ _]) _ IDLE) =>
      apply micro_finish_stopping
  | |- Micro _ (mkAbs _ _ _ _) =>
      apply micro_drop
  end.

(** The moves of a step, found from the last one backwards. *)
Ltac micro_chain1 := first [ apply rtc_refl | eapply rtc_r; [ | micro_move ]; apply rtc_refl ].
Ltac micro_chain2 := first [ apply rtc_refl | eapply rtc_r; [ | micro_move ]; micro_chain1 ].
Ltac micro_chain3 := first [ apply rtc_refl | eapply rtc_r; [ | micro_move ]; micro_chain2 ].

Lemma step_refines (w : World) (i : Input) :
  0 <= sessionId (plugin w) < Long_MAX_VALUE ->
  rtc Micro (abs w) (abs (step w i)).
Proof.
  intros Hid.
  assert (Hwrap : wrap64 (sessionId (plugin w) + 1) = sessionId (plugin w) + 1).
  { apply wrap64_in_range. unfold Long_MIN_VALUE, Long_MAX_VALUE in *.
    change (2 ^ 63) with 9223372036854775808 in *. lia. }
  unfold abs, step.
  destruct (crashed w); [apply rtc_refl|].
  destruct i; unfold_methods; split_cases; rewrite ?Hwrap;
    repeat match goal with
           | H : ListeningState_eqb _ _ = true |- _ =>
               apply ListeningState_eqb_eq in H; rewrite ?H
           | H : listenerSessionId _ = _ |- _ => rewrite ?H; clear H
           | H : mainLooper _ = _ |- _ => rewrite ?H; clear H
           | H : ?x = sessionId (plugin _) |- _ => is_var x; subst x
           end;
    solve [micro_chain3].
Qed.

Lemma each_prefix_nil {A} (Q : list A -> A -> Prop) : each_prefix Q [].
Proof. intros pre e post Heq. destruct pre; discriminate Heq. Qed.

Lemma each_prefix_snoc {A} (Q : list A -> A -> Prop) (l : list A) (x : A) :
  each_prefix Q l -> Q l x -> each_prefix Q (l ++ [x]).
Proof.
  intros Hl Hx pre e post Heq.
  destruct post as [|y post _] using rev_ind.
  - apply app_inj_tail in Heq as [-> ->]. exact Hx.
  - change (pre ++ e :: post ++ [y]) with (pre ++ (e :: post) ++ [y]) in Heq.
    rewrite app_assoc in Heq. apply app_inj_tail in Heq as [-> _].
    eapply Hl. reflexivity.
Qed.

Lemma recreate_failed_neutral (id : Z) (e : EventName * gmap string JSValue) :
  recreate_failed id e -> neutral e.
Proof. destruct e as [name data]. intros (Hn & _). cbn in Hn. subst name. reflexivity. Qed.

(** Reading the phase and id back from an event of known shape. *)
Ltac announce_inv :=
  repeat match goal with
         | H : announces _ _ (_, _) |- _ =>
             unfold announces in H; autorewrite with announce in H;
             simplify_eq
         | H : neutral ?e, H' : announces _ _ ?e |- _ =>
             unfold neutral, announces in H, H'; rewrite H in H'; discriminate H'
         | H : recreate_failed _ ?e, H' : announces _ _ ?e |- _ =>
             apply recreate_failed_neutral in H
         end.

(** *** Sessions are announced first *)

Lemma known_mono l l' id : known l id -> known (l ++ l') id.
Proof. intros [H|H]; [left; exact H | right; apply Exists_app; left; exact H]. Qed.

Lemma known_snoc_starting l id :
  known (l ++ [(LISTENING_EVENT, startingPayload id)]) id.
Proof.
  right. apply Exists_app. right. apply List.Exists_cons_hd. apply lifecycle_starting.
Qed.

Lemma announced_micro (a a' : Abs) : Announced a -> Micro a a' -> Announced a'.
Proof.
  intros [Hlog Hcur Hpend] Hm. cbn in *.
  destruct Hm; cbn in *; constructor; cbn;
    try (apply each_prefix_snoc; [try (apply each_prefix_snoc; [assumption|]) |];
         intros ph' id' Ha Hne; announce_inv);
    try (intros t' id' Hin Hid'; rewrite ?in_app_iff in Hin; cbn in Hin);
    rewrite <- ?app_assoc;
    eauto using known_mono, known_snoc_starting.
  all: try congruence.
  all: try (destruct Hin as [Hin | [<- | []]]; cbn in Hid';
            [ | try discriminate Hid'; injection Hid' as <- ]);
    eauto using known_mono, known_snoc_starting.
  all: try (apply known_mono).
  all: try (eapply Hpend; [right; eassumption | eassumption]).
  - destruct H as [H | H].
    + unfold announces in *. rewrite H in Ha. injection Ha as <- <-.
      eapply Hpend; [left; reflexivity | reflexivity].
    + apply recreate_failed_neutral in H. unfold neutral, announces in *. congruence.
  - destruct Hin as [<- | Hin]; cbn in Hid'.
    + injection Hid' as <-. eapply Hpend; [left; reflexivity | reflexivity].
    + eapply Hpend; [right; exact Hin | exact Hid'].
Qed.

(** *** Closing events come after stoppingListening *)

Lemma Exists_snoc_here {A} (P : A -> Prop) (l : list A) (x : A) :
  P x -> Exists P (l ++ [x]).
Proof. intros Hx. apply Exists_app. right. apply List.Exists_cons_hd, Hx. Qed.

Lemma Exists_snoc_before {A} (P : A -> Prop) (l : list A) (x : A) :
  Exists P l -> Exists P (l ++ [x]).
Proof. intros Hl. apply Exists_app. left. exact Hl. Qed.

Ltac closing_goal :=
  lazymatch goal with
  | |- each_prefix _ (_ ++ [_]) =>
      apply each_prefix_snoc; [assumption|];
      intros id' [Ha | Ha]; announce_inv
  | |- each_prefix _ _ => assumption
  | |- _ = STOPPING -> _ => intros Hp; try discriminate Hp
  | |- forall t id, _ -> closes _ = _ -> _ =>
      intros t' id' Hin Ht'; rewrite ?in_app_iff in Hin; cbn in Hin
  end.

Lemma announces_userStop (id : Z) :
  announces StoppingListening id (LISTENING_EVENT, userStopPayload id).
Proof. apply lifecycle_userStop. Qed.

Lemma announces_stopping (id : Z) (reason : string) (errorCode : option string) :
  announces StoppingListening id (LISTENING_EVENT, stoppingPayload id reason errorCode).
Proof. apply lifecycle_stopping. Qed.

Ltac same_event :=
  repeat match goal with
         | H : announces _ _ ?x, H' : announces _ _ ?x |- _ =>
             unfold announces in H, H'; rewrite H in H'; simplify_eq
         end.

Ltac pending_cases :=
  repeat match goal with
         | H : _ \/ _ |- _ => destruct H
         | H : False |- _ => destruct H
         | H : ?t = ?t' |- _ => is_var t'; subst t'
         | H : closes _ = Some _ |- _ => progress cbn in H
         | H : None = Some _ |- _ => discriminate H
         | H : Some _ = Some _ |- _ => injection H as <-
         end.

Lemma closing_micro (a a' : Abs) : Closing a -> Micro a a' -> Closing a'.
Proof.
  intros [Hlog Hst Hpend] Hm. cbn in *.
  destruct Hm; cbn in *; constructor; cbn; closing_goal; pending_cases;
    eauto 6 using Exists_snoc_here, Exists_snoc_before,
      announces_userStop, announces_stopping.
  - destruct H as [H | H]; same_event; announce_inv.
    eapply Hpend; [left; reflexivity | reflexivity].
  - destruct H as [H | H]; same_event; announce_inv.
Qed.

(** *** The stopped event follows the first event of its runnable *)

Lemma recreated_micro (a a' : Abs) : Recreated a -> Micro a a' -> Recreated a'.
Proof.
  intros [Hlog Hpend] Hm. cbn in *.
  destruct Hm; cbn in *; constructor; cbn;
    try assumption;
    try (apply each_prefix_snoc; [assumption|]; intros id' Ha; announce_inv);
    try (intros id' reason' errorCode' Hin; rewrite ?in_app_iff in Hin; cbn in Hin;
         repeat match goal with
                | H : _ \/ _ |- _ => destruct H
                | H : False |- _ => destruct H
                end;
         simplify_eq);
    eauto using Exists_snoc_here, Exists_snoc_before.
  destruct H as [H | H]; same_event; announce_inv.
Qed.

(** *** The begin runnable of a session runs before its recreate runnable *)

Lemma each_prefix_impl {A} (Q Q' : list A -> A -> Prop) (l : list A) :
  (forall pre e, Q pre e -> Q' pre e) -> each_prefix Q l -> each_prefix Q' l.
Proof. intros HQ Hl pre e post Heq. apply HQ. eapply Hl. exact Heq. Qed.

Lemma each_prefix_head {A} (Q : list A -> A -> Prop) (x : A) (l : list A) :
  each_prefix Q (x :: l) -> Q [] x.
Proof. intros Hl. apply (Hl [] x l). reflexivity. Qed.

Lemma each_prefix_tail {A} (Q : list A -> A -> Prop) (x : A) (l : list A) :
  each_prefix Q (x :: l) -> each_prefix (fun pre e => Q (x :: pre) e) l.
Proof. intros Hl pre e post Heq. apply (Hl (x :: pre) e post). rewrite Heq. reflexivity. Qed.

Lemma not_closing_snoc (l : list (EventName * gmap string JSValue))
    (e : EventName * gmap string JSValue) (id : Z) :
  ~ Exists (closing id) l -> ~ closing id e -> ~ Exists (closing id) (l ++ [e]).
Proof.
  intros Hl He Hex. apply Exists_app in Hex as [Hex | Hex]; [exact (Hl Hex)|].
  inversion Hex as [? ? Hc | ? ? Hc]; subst; [exact (He Hc) | inversion Hc].
Qed.

Lemma closing_has_id (l : list (EventName * gmap string JSValue)) (id : Z) :
  Exists (closing id) l -> exists e ph, In e l /\ announces ph id e.
Proof.
  intros Hex. apply List.Exists_exists in Hex as (e & Hin & [Hc | Hc]); eauto.
Qed.

Ltac not_closing :=
  let Hc := fresh "Hc" in
  intros [Hc | Hc]; announce_inv; same_event; announce_inv.

Lemma fifo_log_snoc (l : list (EventName * gmap string JSValue))
    (e : EventName * gmap string JSValue) (s s' : Z) :
  (forall e' ph id, In e' l -> announces ph id e' -> id <= s) ->
  s <= s' ->
  (forall ph id, announces ph id e -> id <= s') ->
  forall e' ph id, In e' (l ++ [e]) -> announces ph id e' -> id <= s'.
Proof.
  intros Hl Hs He e' ph id Hin Ha. apply in_app_iff in Hin as [Hin | [<- | []]].
  - specialize (Hl e' ph id Hin Ha). lia.
  - eapply He, Ha.
Qed.

Lemma fifo_begin_grow (q : list Task) (l l' : list (EventName * gmap string JSValue)) :
  (forall id, ~ Exists (closing id) l -> ~ Exists (closing id) l') ->
  each_prefix (fun pre t => forall id,
                   begins id t ->
                   (forall t', In t' pre -> closes t' <> Some id)
                   /\ ~ Exists (closing id) l) q ->
  each_prefix (fun pre t => forall id,
                   begins id t ->
                   (forall t', In t' pre -> closes t' <> Some id)
                   /\ ~ Exists (closing id) l') q.
Proof.
  intros Hgrow. apply each_prefix_impl. intros pre t Ht id Hb.
  destruct (Ht id Hb) as [Hpre Hl]. split; [exact Hpre | apply Hgrow, Hl].
Qed.

Lemma fifo_begin_pop (t : Task) (q : list Task) (l : list (EventName * gmap string JSValue)) :
  each_prefix (fun pre t => forall id,
                   begins id t ->
                   (forall t', In t' pre -> closes t' <> Some id)
                   /\ ~ Exists (closing id) l) (t :: q) ->
  each_prefix (fun pre t => forall id,
                   begins id t ->
                   (forall t', In t' pre -> closes t' <> Some id)
                   /\ ~ Exists (closing id) l) q.
Proof.
  intros Hq. apply each_prefix_tail in Hq. revert Hq. apply each_prefix_impl.
  intros pre t' Ht id Hb. destruct (Ht id Hb) as [Hpre Hl]. split; [|exact Hl].
  intros t'' Hin. apply Hpre. right. exact Hin.
Qed.

Lemma closes_task_id (t : Task) (id : Z) : closes t = Some id -> task_id t = Some id.
Proof. destruct t; cbn; congruence. Qed.

Lemma each_prefix_cons {A} (Q : list A -> A -> Prop) (x : A) (l : list A) :
  Q [] x -> each_prefix (fun pre e => Q (x :: pre) e) l -> each_prefix Q (x :: l).
Proof.
  intros Hx Hl pre e post Heq. destruct pre as [|y pre]; cbn in Heq.
  - injection Heq as <- _. exact Hx.
  - injection Heq as <- Heq. eapply Hl. exact Heq.
Qed.

Ltac fifo_pending Hpend :=
  let t' := fresh "t'" in
  let id' := fresh "id'" in
  let Hin := fresh "Hin" in
  let Hid := fresh "Hid" in
  intros t' id' Hin Hid; rewrite ?in_app_iff in Hin; cbn in Hin;
  repeat match goal with
         | H : _ \/ _ |- _ => destruct H
         | H : False |- _ => destruct H
         end;
  subst; cbn in *; simplify_eq;
  first [ lia
        | match goal with
          | H : In _ _ |- _ => pose proof (Hpend _ _ H Hid); lia
          | H : In _ _ |- _ => pose proof (Hpend _ _ (or_intror H) Hid); lia
          end ].

Ltac fifo_grow Hbeg :=
  let id' := fresh "id'" in
  let Hl := fresh "Hl" in
  eapply fifo_begin_grow; [ | exact Hbeg ];
  intros id' Hl; apply not_closing_snoc; [ exact Hl | not_closing ].

Lemma fifo_micro (a a' : Abs) : Fifo a -> Micro a a' -> Fifo a'.
Proof.
  intros [Hnn Hlog Hpend Hbeg Hord] Hm. cbn in *.
  destruct Hm; cbn in *.
  - (* noise *)
    constructor; cbn; try assumption.
    + eapply fifo_log_snoc; [eassumption | lia |]. intros ph' id' Ha. announce_inv.
    + fifo_grow Hbeg.
    + apply each_prefix_snoc; [assumption|]. intros id' Ha. announce_inv.
  - (* start, popup *)
    constructor; cbn.
    + lia.
    + eapply fifo_log_snoc; [eassumption | lia |]. intros ph' id' Ha. announce_inv. lia.
    + fifo_pending Hpend.
    + fifo_grow Hbeg.
    + apply each_prefix_snoc; [assumption|]. intros id' Ha. announce_inv.
  - (* start *)
    constructor; cbn.
    + lia.
    + eapply fifo_log_snoc; [eassumption | lia |]. intros ph' id' Ha. announce_inv. lia.
    + fifo_pending Hpend.
    + apply each_prefix_snoc; [fifo_grow Hbeg|].
      intros id' (intent' & c' & pr' & Heq). simplify_eq. split.
      * intros t' Hin Hcl. pose proof (Hpend _ _ Hin (closes_task_id _ _ Hcl)). lia.
      * apply not_closing_snoc; [|not_closing].
        intros Hex. apply closing_has_id in Hex as (e & ph & Hin & Ha).
        pose proof (Hlog _ _ _ Hin Ha). lia.
    + apply each_prefix_snoc; [assumption|]. intros id' Ha. announce_inv.
  - (* stop *)
    constructor; cbn.
    + lia.
    + eapply fifo_log_snoc; [eassumption | lia |]. intros ph' id' Ha. announce_inv. lia.
    + fifo_pending Hpend.
    + apply each_prefix_snoc; [fifo_grow Hbeg|].
      intros id' (intent' & c' & pr' & Heq). discriminate Heq.
    + apply each_prefix_snoc; [assumption|]. intros id' Ha. announce_inv.
  - (* begin *)
    assert (Hid : id <= s) by (apply (Hpend _ id (or_introl eq_refl) eq_refl)).
    assert (Hfresh : ~ Exists (closing id) l).
    { apply each_prefix_head in Hbeg. apply (Hbeg id). do 3 eexists. reflexivity. }
    apply fifo_begin_pop in Hbeg.
    constructor; cbn.
    + lia.
    + eapply fifo_log_snoc; [eassumption | lia |]. intros ph' id' Ha. announce_inv. lia.
    + fifo_pending Hpend.
    + fifo_grow Hbeg.
    + apply each_prefix_snoc; [assumption|]. intros id' Ha. announce_inv. exact Hfresh.
  - (* drop *)
    apply fifo_begin_pop in Hbeg.
    constructor; cbn; try assumption.
    fifo_pending Hpend.
  - (* finish *)
    constructor; cbn.
    + lia.
    + eapply fifo_log_snoc; [eassumption | lia |]. intros ph' id' Ha. announce_inv. lia.
    + fifo_pending Hpend.
    + apply each_prefix_snoc; [fifo_grow Hbeg|].
      intros id' (intent' & c' & pr' & Heq). discriminate Heq.
    + apply each_prefix_snoc; [assumption|]. intros id' Ha. announce_inv.
  - (* finish, already stopping *)
    constructor; cbn; try assumption.
    + fifo_pending Hpend.
    + apply each_prefix_snoc; [assumption|].
      intros id' (intent' & c' & pr' & Heq). discriminate Heq.
  - (* recreate, up to its first event *)
    assert (Hid : id <= s) by (apply (Hpend _ id (or_introl eq_refl) eq_refl)).
    assert (Hx : forall ph' id', announces ph' id' x -> id' = id).
    { intros ph' id' Ha. destruct H as [H | H]; same_event; announce_inv. reflexivity. }
    constructor; cbn.
    + lia.
    + apply (fifo_log_snoc _ _ s s); [assumption | lia |].
      intros ph' id' Ha. rewrite (Hx _ _ Ha). lia.
    + fifo_pending Hpend.
    + apply each_prefix_cons.
      * intros id' (intent' & c' & pr' & Heq). discriminate Heq.
      * apply each_prefix_tail in Hbeg. revert Hbeg. apply each_prefix_impl.
        intros pre t Ht id' Hb. destruct (Ht id' Hb) as [Hpre Hl].
        assert (Hne : id' <> id).
        { intros ->. apply (Hpre (RecreateTask id reason errorCode)); [left|]; reflexivity. }
        split.
        -- intros t' [<- | Hin]; [cbn; congruence|]. apply Hpre. right. exact Hin.
        -- apply not_closing_snoc; [exact Hl|].
           intros [Hc | Hc]; apply Hx in Hc; contradiction.
    + apply each_prefix_snoc; [assumption|]. intros id' Ha.
      destruct H as [H | H]; same_event; announce_inv.
  - (* recreate, the stopped event *)
    assert (Hid : id <= s) by (apply (Hpend _ id (or_introl eq_refl) eq_refl)).
    constructor; cbn.
    + lia.
    + apply (fifo_log_snoc _ _ s s); [assumption | lia |].
      intros ph' id' Ha. announce_inv. lia.
    + fifo_pending Hpend.
    + apply each_prefix_tail in Hbeg. revert Hbeg. apply each_prefix_impl.
      intros pre t Ht id' Hb. destruct (Ht id' Hb) as [Hpre Hl].
      assert (Hne : id' <> id).
      { intros ->. apply (Hpre (AnnounceTask id reason errorCode)); [left|]; reflexivity. }
      split.
      * intros t' Hin. apply Hpre. right. exact Hin.
      * apply not_closing_snoc; [exact Hl|].
        intros [Hc | Hc]; announce_inv; contradiction.
    + apply each_prefix_snoc; [assumption|]. intros id' Ha. announce_inv.
Qed.

(** *** Every run keeps the four properties *)

Lemma ordered_micro (a a' : Abs) : Ordered a -> Micro a a' -> Ordered a'.
Proof.
  intros [H1 H2 H3 H4] Hm. constructor;
    eauto using announced_micro, closing_micro, recreated_micro, fifo_micro.
Qed.

Lemma ordered_moves (a a' : Abs) : Ordered a -> rtc Micro a a' -> Ordered a'.
Proof.
  intros Ha Hrtc. induction Hrtc as [|a b c Hab _ IH]; [exact Ha|].
  apply IH. eapply ordered_micro; eassumption.
Qed.

Lemma ordered_initial : Ordered (abs initialWorld).
Proof.
  constructor.
  - constructor; cbn.
    + apply each_prefix_nil.
    + left. reflexivity.
    + intros t id [].
  - constructor; cbn.
    + apply each_prefix_nil.
    + discriminate.
    + intros t id [].
  - constructor; cbn.
    + apply each_prefix_nil.
    + intros id reason errorCode [].
  - constructor; cbn.
    + lia.
    + intros e ph id [].
    + intros t id [].
    + apply each_prefix_nil.
    + apply each_prefix_nil.
Qed.

Lemma ordered_run (inputs : list Input) :
  forall w,
    Ordered (abs w) ->
    sessionId (plugin w) + Z.of_nat (length inputs) <= Long_MAX_VALUE ->
    Ordered (abs (run w inputs)).
Proof.
  induction inputs as [|i inputs IH]; intros w Hw Hlen; cbn [run fold_left length] in *.
  - exact Hw.
  - pose proof (ff_nonneg _ (ord_fifo _ Hw)) as Hnn. cbn in Hnn.
    assert (Hid : 0 <= sessionId (plugin w) < Long_MAX_VALUE) by lia.
    apply IH.
    + eapply ordered_moves; [exact Hw|]. apply step_refines, Hid.
    + destruct (session_id_step w i Hid) as [Hs _]. rewrite Hs.
      destruct (start_passes w i); lia.
Qed.

(** C3, amended.  In every run from the initial state (of fewer than
    2^63 inputs), also when bridge calls arrive between the two events of
    a recreate runnable, for every event [e] of the log and what precedes
    it: a lifecycle event of a session id that [start] assigned (any id
    but the initial counter value 0) other than startingListening comes
    after the startingListening event of that id; a readyForNextSession
    or stopped event comes after a stoppingListening event of its id; a
    stopped event comes after the readyForNextSession event of its id,
    or after the RECREATE_FAILED error of its id when the recreation
    failed; and no readyForNextSession or stopped event of an id precedes
    the started event of that id. *)
Theorem lifecycle_events_in_order (inputs : list Input)
    (pre post : list (EventName * gmap string JSValue))
    (e : EventName * gmap string JSValue) (id : Z) :
  Z.of_nat (length inputs) <= Long_MAX_VALUE ->
  emitted (run initialWorld inputs) = pre ++ e :: post ->
  (forall ph, announces ph id e -> ph <> StartingListening -> id <> 0 ->
              Exists (announces StartingListening id) pre)
  /\ (closing id e -> Exists (announces StoppingListening id) pre)
  /\ (announces Stopped id e -> Exists (recreated id) pre)
  /\ (announces Started id e -> ~ Exists (closing id) pre).
Proof.
  intros Hlen Hlog.
  destruct (ordered_run inputs initialWorld ordered_initial) as [H1 H2 H3 H4].
  { cbn. lia. }
  split_and!.
  - intros ph Ha Hne Hid.
    destruct (ann_log _ H1 pre e post Hlog ph id Ha Hne) as [H0 | Hex];
      [contradiction | exact Hex].
  - exact (cl_log _ H2 pre e post Hlog id).
  - exact (rc_log _ H3 pre e post Hlog id).
  - exact (ff_order _ H4 pre e post Hlog id).
Qed.

Lemma lifecycle_events_in_order_witness :
  Exists (announces StoppingListening 1)
    [(LISTENING_EVENT, startingPayload 1);
     (LISTENING_EVENT, startedPayload 1);
     (ERROR_EVENT, errorPayload "NO_MATCH" "No match" 1);
     (LISTENING_EVENT, stoppingPayload 1 "silence" (Some "NO_MATCH"));
     (READY_FOR_NEXT_SESSION_EVENT, readyPayload 1)].
Proof.
  refine (proj1 (proj2 (lifecycle_events_in_order
            [CallStart device (plainCall 1); RunPosted NativeOk;
             EngineError (listenerOf (plainCall 1) 1) ERROR_NO_MATCH; RunPosted NativeOk]
            _ [] (LISTENING_EVENT, stoppedPayload 1 "silence" (Some "NO_MATCH")) 1 _ _)) _).
  - vm_compute. discriminate.
  - run_scenario.
  - right. reflexivity.
Defined.

(** C3, counterexample: a streaming session is stopped by the user and
    the engine then delivers the final result.  [onResults] forwards it
    as a partialResults event, which comes after the stoppingListening
    event of the session.  A partial result that the engine delivers
    after the stop is emitted after that event as well. *)
Lemma final_result_after_stoppingListening :
  let w := run initialWorld
             [CallStart device (streamingCall 1); RunPosted NativeOk;
              CallStop (plainCall 2); RunPosted NativeOk;
              EngineResults (listenerOf (streamingCall 1) 1)
                            (mkBundle (Some [Some "hello"]) None);
              RunPosted NativeOk] in
  let v := run initialWorld
             [CallStart device (streamingCall 1); RunPosted NativeOk;
              CallStop (plainCall 2); RunPosted NativeOk;
              EnginePartialResults (listenerOf (streamingCall 1) 1)
                                   (mkBundle (Some [Some "hel"]) None)] in
  emitted w
  = [(LISTENING_EVENT, startingPayload 1);
     (LISTENING_EVENT, startedPayload 1);
     (LISTENING_EVENT, userStopPayload 1);
     (PARTIAL_RESULTS_EVENT, matchesPayload [Some "hello"]);
     (READY_FOR_NEXT_SESSION_EVENT, readyPayload 1);
     (LISTENING_EVENT, stoppedPayload 1 "results" None)]
  /\ (exists pre e post,
        emitted w = pre ++ e :: post
        /\ fst e = PARTIAL_RESULTS_EVENT
        /\ Exists (announces StoppingListening 1) pre)
  /\ emitted v
     = [(LISTENING_EVENT, startingPayload 1);
        (LISTENING_EVENT, startedPayload 1);
        (LISTENING_EVENT, userStopPayload 1);
        (PARTIAL_RESULTS_EVENT, matchesPayload [Some "hel"])].
Proof.
  cbv zeta.
  assert (Hlog : emitted (run initialWorld
             [CallStart device (streamingCall 1); RunPosted NativeOk;
              CallStop (plainCall 2); RunPosted NativeOk;
              EngineResults (listenerOf (streamingCall 1) 1)
                            (mkBundle (Some [Some "hello"]) None);
              RunPosted NativeOk])
          = [(LISTENING_EVENT, startingPayload 1);
             (LISTENING_EVENT, startedPayload 1);
             (LISTENING_EVENT, userStopPayload 1);
             (PARTIAL_RESULTS_EVENT, matchesPayload [Some "hello"]);
             (READY_FOR_NEXT_SESSION_EVENT, readyPayload 1);
             (LISTENING_EVENT, stoppedPayload 1 "results" None)]).
  { run_scenario. }
  split; [exact Hlog|]. split; [|run_scenario].
  exists [(LISTENING_EVENT, startingPayload 1);
          (LISTENING_EVENT, startedPayload 1);
          (LISTENING_EVENT, userStopPayload 1)],
         (PARTIAL_RESULTS_EVENT, matchesPayload [Some "hello"]),
         [(READY_FOR_NEXT_SESSION_EVENT, readyPayload 1);
          (LISTENING_EVENT, stoppedPayload 1 "results" None)].
  split_and!.
  - exact Hlog.
  - reflexivity.
  - do 2 apply List.Exists_cons_tl. apply List.Exists_cons_hd. apply announces_userStop.
Qed.

(** The bridge thread gets in between the two events of the recreate
    runnable of session 1: the startingListening event of session 2
    comes between the readyForNextSession and the stopped event of
    session 1. *)
Example start_between_ready_and_stopped :
  lifecycles
    (emitted (run initialWorld
                [CallStart device (plainCall 1); RunPosted NativeOk;
                 EngineResults (listenerOf (plainCall 1) 1)
                   (mkBundle (Some [Some "hello"]) None);
                 RunPostedFirst NativeOk;
                 CallStart device (plainCall 2);
                 RunPosted NativeOk; RunPosted NativeOk]))
  = [(StartingListening, 1); (Started, 1); (StoppingListening, 1);
     (ReadyForNextSession, 1); (StartingListening, 2); (Stopped, 1);
     (Started, 2)].
Proof. vm_compute. reflexivity. Qed.

(** When [stop] arrives before the runnable posted by [start] has run,
    stoppingListening is announced before started, and the runnable then
    puts the state back to STARTED. *)
Lemma stop_before_begin_runnable :
  let w := run initialWorld
             [CallStart device (plainCall 1); CallStop (plainCall 2);
              RunPosted NativeOk; RunPosted NativeOk] in
  lifecycles (emitted w)
  = [(StartingListening, 1); (StoppingListening, 1); (Started, 1)]
  /\ state (plugin w) = STARTED
  /\ mainLooper w = [].
Proof.
  cbv zeta. split_and!.
  - vm_compute. reflexivity.
  - run_scenario.
  - run_scenario.
Qed.

(** ** C4: what [isListening] reports *)

Lemma listening_only_when_active_step (w : World) (i : Input) :
  listening_only_when_active w -> listening_only_when_active (step w i).
Proof.
  unfold listening_only_when_active, step. intros Hinv.
  destruct (crashed w); [exact Hinv|].
  destruct i; unfold_methods; split_cases;
    solve [assumption | congruence | intros; congruence | intuition congruence].
Qed.

(** C4, amended.  [isListening] answers with the [listening] flag, and
    in every state the plugin can reach the flag is set only if the state
    is not IDLE. *)
Theorem isListening_reports_flag (inputs : list Input) (c : PluginCall) :
  let w := run initialWorld inputs in
  replies (exec (isListening c) w)
  = replies w ++ [(c, Resolve (put "listening" (JBool (listening (plugin w))) ∅))]
  /\ (listening (plugin w) = true -> state (plugin w) <> IDLE).
Proof.
  split.
  - reflexivity.
  - apply (run_invariant listening_only_when_active).
    + apply listening_only_when_active_step.
    + intros H. discriminate H.
Qed.

Lemma isListening_reports_flag_witness :
  listening (plugin (run initialWorld [CallStart device (plainCall 1); RunPosted NativeOk])) = true
  /\ state (plugin (run initialWorld [CallStart device (plainCall 1); RunPosted NativeOk])) <> IDLE.
Proof.
  split.
  - run_scenario.
  - apply (proj2 (isListening_reports_flag
                    [CallStart device (plainCall 1); RunPosted NativeOk] (plainCall 2))).
    run_scenario.
Defined.

(** C4, counterexample: after a [start] that passed its preconditions and
    before the posted runnable has run, the state is STARTING while
    [isListening] answers false. *)
Lemma isListening_false_while_starting :
  let w := run initialWorld [CallStart device (plainCall 1)] in
  state (plugin w) = STARTING
  /\ replies (step w (CallIsListening (plainCall 2)))
     = replies w ++ [(plainCall 2, Resolve (put "listening" (JBool false) ∅))]
  /\ ~ (listening (plugin w) = true <-> state (plugin w) <> IDLE).
Proof.
  cbv zeta. split_and!; try (run_scenario; fail).
  intros [_ H]. revert H. run_scenario. intros H. discriminate H. discriminate.
Qed.

(** ** C5: the [status] field of listeningState events *)

Ltac status_cases :=
  unfold status_follows_state; vm_compute;
  repeat split; intros; try reflexivity;
  repeat match goal with H : _ \/ _ |- _ => destruct H end;
  try discriminate; auto.

Lemma status_starting (id : Z) : listening_event_ok (LISTENING_EVENT, startingPayload id).
Proof. intros _. status_cases. Qed.

Lemma status_userStop (id : Z) : listening_event_ok (LISTENING_EVENT, userStopPayload id).
Proof. intros _. status_cases. Qed.

Lemma status_started (id : Z) : listening_event_ok (LISTENING_EVENT, startedPayload id).
Proof. intros _. status_cases. Qed.

Lemma status_stopping (id : Z) (reason : string) (errorCode : option string) :
  listening_event_ok (LISTENING_EVENT, stoppingPayload id reason errorCode).
Proof. intros _. destruct errorCode; status_cases. Qed.

Lemma status_stopped (id : Z) (reason : string) (errorCode : option string) :
  listening_event_ok (LISTENING_EVENT, stoppedPayload id reason errorCode).
Proof. intros _. destruct errorCode; status_cases. Qed.

Lemma status_other (name : EventName) (data : gmap string JSValue) :
  name <> LISTENING_EVENT -> listening_event_ok (name, data).
Proof. intros Hn He. contradiction. Qed.

Create HintDb status discriminated.
#[export] Hint Resolve status_starting status_userStop status_started
  status_stopping status_stopped : status.
#[export] Hint Extern 1 (listening_event_ok (_, _)) =>
  (apply status_other; discriminate) : status.

Lemma listening_events_ok_step (w : World) (i : Input) :
  Forall listening_event_ok (emitted w) ->
  Forall listening_event_ok (emitted (step w i)).
Proof.
  unfold step. intros Hinv.
  destruct (crashed w); [exact Hinv|].
  destruct i; unfold_methods; split_cases;
    rewrite ?Forall_app; repeat split;
    solve [assumption
          | repeat (apply List.Forall_cons; [solve [auto with status]|]);
            apply List.Forall_nil].
Qed.

(** C5, amended.  In every listeningState event the plugin emits, the
    [status] field is "started" exactly when [state] is "started" and
    "stopped" exactly when [state] is "stopped"; the field is absent on
    the startingListening and stoppingListening events, and only there. *)
Theorem status_derived_from_state (inputs : list Input)
    (e : EventName * gmap string JSValue) :
  In e (emitted (run initialWorld inputs)) ->
  fst e = LISTENING_EVENT ->
  status_follows_state (snd e).
Proof.
  intros Hin.
  assert (Hall : Forall listening_event_ok (emitted (run initialWorld inputs))).
  { apply (run_invariant (fun w => Forall listening_event_ok (emitted w))).
    - apply listening_events_ok_step.
    - apply List.Forall_nil. }
  rewrite List.Forall_forall in Hall. exact (Hall e Hin).
Qed.

Lemma status_derived_from_state_witness :
  status_follows_state (startedPayload 1).
Proof.
  apply (status_derived_from_state
           [CallStart device (plainCall 1); RunPosted NativeOk]
           (LISTENING_EVENT, startedPayload 1)).
  - run_scenario. right. left. reflexivity.
  - reflexivity.
Defined.

(** C5, counterexample: the startingListening event that [start] emits
    has no [status] field. *)
Lemma starting_event_without_status :
  let w := run initialWorld [CallStart device (plainCall 1)] in
  emitted w = [(LISTENING_EVENT, startingPayload 1)]
  /\ startingPayload 1 !! "status" = None
  /\ startingPayload 1 !! "state" = Some (JString "startingListening").
Proof.
  cbv zeta. split_and!.
  - run_scenario.
  - reflexivity.
  - reflexivity.
Qed.

(** ** C6: the error mapper *)

(** C6.  The mapper is a function on every native code (so total and
    deterministic); a code outside the table 1..9 maps to "UNKNOWN_<n>"
    with the generic message; the reason is "silence" exactly for NO_MATCH
    and SPEECH_TIMEOUT and "error" for every other code; 9999 maps to
    "UNKNOWN_9999" with reason "error"; and [onError] emits the error
    event with the mapped code and message. *)
Theorem error_mapper_total (n : Z) :
  (~ (1 <= n <= 9) ->
     getErrorCode n = "UNKNOWN_" +:+ Integer_toString n
     /\ getErrorText n = "Didn't understand, please try again.")
  /\ (errorReason n = "silence" <-> n = ERROR_NO_MATCH \/ n = ERROR_SPEECH_TIMEOUT)
  /\ (errorReason n = "error" <-> ~ (n = ERROR_NO_MATCH \/ n = ERROR_SPEECH_TIMEOUT))
  /\ (getErrorCode ERROR_NO_MATCH = "NO_MATCH"
      /\ getErrorCode ERROR_SPEECH_TIMEOUT = "SPEECH_TIMEOUT"
      /\ getErrorCode ERROR_NETWORK = "NETWORK"
      /\ errorReason ERROR_NETWORK = "error")
  /\ (getErrorCode 9999 = "UNKNOWN_9999" /\ errorReason 9999 = "error")
  /\ (forall w l, exists rest,
        emitted (exec (onError l n) w)
        = emitted w
          ++ (ERROR_EVENT, errorPayload (getErrorCode n) (getErrorText n) (listenerSessionId l))
          :: rest).
Proof.
  refine (conj _ (conj _ (conj _ (conj _ (conj _ _))))).
  - intros Hn. unfold getErrorCode, getErrorText.
    repeat match goal with
           | |- context [?a =? ?b] =>
               destruct (Z.eqb_spec a b) as [->|_];
               [exfalso; apply Hn; vm_compute; split; discriminate|]
           end.
    split; reflexivity.
  - unfold errorReason.
    destruct (Z.eqb_spec n ERROR_NO_MATCH), (Z.eqb_spec n ERROR_SPEECH_TIMEOUT);
      cbn; split; intros; try tauto; try discriminate.
  - unfold errorReason.
    destruct (Z.eqb_spec n ERROR_NO_MATCH), (Z.eqb_spec n ERROR_SPEECH_TIMEOUT);
      cbn; split; intros; try tauto; try discriminate.
  - repeat split; reflexivity.
  - split; reflexivity.
  - intros w l. unfold exec, onError, bind, notifyListeners, finishSession, read, when, ret,
      update, post, answer. cbn.
    destruct (listenerSessionId l =? sessionId (plugin w)); cbn.
    + destruct (ListeningState_eqb (state (plugin w)) STOPPING); cbn;
        destruct (call l); cbn; try destruct (partialResults l); cbn;
        rewrite <- ?app_assoc; eexists; reflexivity.
    + destruct (call l); cbn; try destruct (partialResults l); cbn;
        eexists; cbn; rewrite ?app_nil_r; try reflexivity.
Qed.

Lemma error_mapper_total_witness :
  ~ (1 <= 9999 <= 9)
  /\ getErrorCode 9999 = "UNKNOWN_" +:+ Integer_toString 9999
  /\ getErrorText 9999 = "Didn't understand, please try again.".
Proof.
  split; [lia|].
  apply (proj1 (error_mapper_total 9999)). lia.
Defined.

(** ** C7: session ids *)

Lemma session_ids_from (inputs : list Input) :
  forall w,
    0 <= sessionId (plugin w) ->
    sessionId (plugin w) + Z.of_nat (length inputs) <= Long_MAX_VALUE ->
    sessionId (plugin (run w inputs))
    = sessionId (plugin w) + Z.of_nat (sessionsStarted w inputs)
    /\ startingIds (emitted (run w inputs))
       = startingIds (emitted w)
         ++ seqZ (sessionId (plugin w) + 1) (Z.of_nat (sessionsStarted w inputs)).
Proof.
  induction inputs as [|i inputs IH]; intros w Hlo Hhi.
  - cbn. rewrite Z.add_0_r, seqZ_nil, app_nil_r by lia. split; reflexivity.
  - cbn [run fold_left sessionsStarted length] in *.
    destruct (session_id_step w i) as (Hid & Hlog); [lia|].
    destruct (IH (step w i)) as (Hid' & Hlog').
    { rewrite Hid. destruct (start_passes w i); lia. }
    { rewrite Hid. destruct (start_passes w i); lia. }
    change (fold_left step inputs (step w i)) with (run (step w i) inputs).
    rewrite Hid', Hlog', Hid, Hlog.
    destruct (start_passes w i).
    + split; [lia|].
      rewrite <- app_assoc. f_equal.
      replace (Z.of_nat (1 + sessionsStarted (step w i) inputs))
        with (1 + Z.of_nat (sessionsStarted (step w i) inputs)) by lia.
      rewrite seqZ_app by lia.
      rewrite seqZ_one. reflexivity.
    + rewrite app_nil_r, !Z.add_0_r. split; reflexivity.
Qed.

(** C7.  For every run of the plugin from its initial state (short of
    the 2^63 calls that would overflow the [long] counter), the session
    ids announced by the startingListening events are 1, 2, ..., N in
    this order, where N is the number of [start] calls that passed their
    preconditions, and N is the value of the session counter: each such
    call adds exactly one, nothing else changes the counter, and no id is
    repeated. *)
Theorem session_ids_count_up (inputs : list Input) :
  Z.of_nat (length inputs) <= Long_MAX_VALUE ->
  let w := run initialWorld inputs in
  let n := Z.of_nat (sessionsStarted initialWorld inputs) in
  sessionId (plugin w) = n
  /\ startingIds (emitted w) = seqZ 1 n
  /\ NoDup (startingIds (emitted w)).
Proof.
  intros Hlen w n.
  destruct (session_ids_from inputs initialWorld) as (Hid & Hlog); cbn; [lia | lia |].
  cbn in Hid, Hlog. subst w n. split_and!.
  - exact Hid.
  - exact Hlog.
  - rewrite Hlog. apply NoDup_seqZ.
Qed.

Lemma session_ids_count_up_witness :
  startingIds
    (emitted (run initialWorld
                [CallStart device (plainCall 1); RunPosted NativeOk;
                 CallStart (mkEnv false GRANTED "en_US") (plainCall 2);
                 CallStart device (plainCall 3)]))
  = [1; 2].
Proof.
  pose proof (session_ids_count_up
                [CallStart device (plainCall 1); RunPosted NativeOk;
                 CallStart (mkEnv false GRANTED "en_US") (plainCall 2);
                 CallStart device (plainCall 3)]) as H.
  cbv zeta in H. destruct H as (_ & H & _).
  - vm_compute. discriminate.
  - exact H.
Defined.

(** ** C8: precondition failures of [start] *)

(** C8.  When the engine is unavailable or the permission is not granted,
    [start] only answers the call with the precondition error: the plugin
    fields (session id, state, listening flag, readiness flag, recognizer
    handle) are unchanged, nothing is posted, no activity is started and
    no event is emitted. *)
Theorem start_precondition_failure (env : Env) (c : PluginCall) (w : World) :
  isRecognitionAvailable env = false \/ getPermissionState env <> GRANTED ->
  let w' := exec (start env c) w in
  plugin w' = plugin w
  /\ emitted w' = emitted w
  /\ mainLooper w' = mainLooper w
  /\ activities w' = activities w
  /\ crashed w' = crashed w
  /\ replies w'
     = replies w
       ++ [(c, if isRecognitionAvailable env then Reject MISSING_PERMISSION
               else Unavailable NOT_AVAILABLE)].
Proof.
  intros Hpre. unfold start; unfold_act.
  destruct (isRecognitionAvailable env) eqn:Ha; cbn.
  - destruct Hpre as [Hpre | Hpre]; [discriminate|].
    destruct (getPermissionState env); cbn; try contradiction; repeat split; reflexivity.
  - repeat split; reflexivity.
Qed.

Lemma start_precondition_failure_witness :
  plugin (exec (start (mkEnv true DENIED "en_US") (plainCall 1)) initialWorld) = initialPlugin
  /\ emitted (exec (start (mkEnv true DENIED "en_US") (plainCall 1)) initialWorld) = [].
Proof.
  pose proof (start_precondition_failure (mkEnv true DENIED "en_US") (plainCall 1) initialWorld) as H.
  cbv zeta in H.
  destruct H as (Hp & He & _).
  - right. cbn. discriminate.
  - split; [exact Hp | exact He].
Defined.

(** ** C9: the unstable text and the partial snapshot *)

(** C9.  [buildMatchesWithUnstableText] changes the matches only by
    merging the trimmed unstable text into the first match, and does so
    exactly when that text is present and not blank and the trimmed first
    match neither equals it nor ends with a space followed by it;
    [onPartialResults] emits nothing and changes nothing when the built
    matches equal the last snapshot, and otherwise (for a non-empty list)
    emits one partialResults event and stores the snapshot. *)
Theorem partial_results_merge_and_dedup (b : Bundle) :
  (buildMatchesWithUnstableText b <> RESULTS_RECOGNITION b ->
     exists first rest unstable,
       RESULTS_RECOGNITION b = Some (Some first :: rest)
       /\ UNSTABLE_TEXT b = Some unstable
       /\ trim unstable <> ""
       /\ trim first <> trim unstable
       /\ ~ (exists p, trim first = p +:+ " " +:+ trim unstable)
       /\ buildMatchesWithUnstableText b
          = Some (Some (trim first +:+ " " +:+ trim unstable) :: rest))
  /\ (forall first rest unstable,
        RESULTS_RECOGNITION b = Some (Some first :: rest) ->
        UNSTABLE_TEXT b = Some unstable ->
        trim unstable <> "" ->
        trim first <> trim unstable ->
        ~ (exists p, trim first = p +:+ " " +:+ trim unstable) ->
        buildMatchesWithUnstableText b
        = Some (Some (trim first +:+ " " +:+ trim unstable) :: rest))
  /\ (forall w l,
        buildMatchesWithUnstableText b = Some (previousPartialResults (plugin w)) ->
        onPartialResults l b w = (tt, w))
  /\ (forall w l matches,
        buildMatchesWithUnstableText b = Some matches ->
        matches <> [] ->
        matches <> previousPartialResults (plugin w) ->
        let w' := exec (onPartialResults l b) w in
        emitted w' = emitted w ++ [(PARTIAL_RESULTS_EVENT, matchesPayload matches)]
        /\ previousPartialResults (plugin w') = matches).
Proof.
  refine (conj _ (conj _ (conj _ _))).
  - unfold buildMatchesWithUnstableText.
    destruct (RESULTS_RECOGNITION b) as [[|[first|] rest]|]; try congruence;
      destruct (UNSTABLE_TEXT b) as [unstable|]; try congruence;
      destruct (isEmpty (trim unstable)) eqn:He; try congruence.
    destruct (String.eqb (trim first) (trim unstable)) eqn:Heq; cbn; try congruence.
    destruct (endsWith (trim first) (" " +:+ trim unstable)) eqn:Hends; try congruence.
    intros _. exists first, rest, unstable. repeat split.
    + intros Hu. apply isEmpty_spec in Hu. congruence.
    + apply String.eqb_neq, Heq.
    + intros Hp. apply endsWith_spec in Hp. congruence.
  - intros first rest unstable Hr Hu Hne Hneq Hsuf.
    unfold buildMatchesWithUnstableText. rewrite Hr, Hu.
    destruct (isEmpty (trim unstable)) eqn:He.
    { apply isEmpty_spec in He. contradiction. }
    apply String.eqb_neq in Hneq. rewrite Hneq. cbn.
    destruct (endsWith (trim first) (" " +:+ trim unstable)) eqn:Hends; [|reflexivity].
    apply endsWith_spec in Hends. contradiction.
  - intros w l Hb. unfold onPartialResults. rewrite Hb.
    destruct (previousPartialResults (plugin w)) eqn:Hprev; [reflexivity|].
    unfold_act. rewrite Hprev. unfold matches_eqb.
    rewrite bool_decide_eq_true_2 by reflexivity. reflexivity.
  - intros w l matches Hb Hne Hdiff. unfold onPartialResults. rewrite Hb.
    destruct matches as [|m ms]; [contradiction|].
    unfold_act. unfold matches_eqb.
    rewrite bool_decide_eq_false_2 by congruence. cbn. split; reflexivity.
Qed.

Lemma partial_results_merge_and_dedup_witness :
  buildMatchesWithUnstableText (mkBundle (Some [Some "hello "; Some "hallo"]) (Some " wor"))
  = Some [Some "hello wor"; Some "hallo"].
Proof.
  pose proof (partial_results_merge_and_dedup
                (mkBundle (Some [Some "hello "; Some "hallo"]) (Some " wor"))) as (H & _).
  destruct H as (first & rest & unstable & Hr & Hu & _ & _ & _ & Hb).
  - cbn. discriminate.
  - cbn in Hr, Hu. injection Hr as <- <-. injection Hu as <-. exact Hb.
Defined.

(** ** C10: sessions started with the popup *)

Lemma popup_pending_step (id : Z) (announced : list (Phase * Z)) (k : nat)
    (w : World) (i : Input) :
  leaves_session_alone id i = true ->
  popup_pending id announced k w ->
  exists k',
    (k <= k' <= k + (if is_stop i then 1 else 0))%nat
    /\ popup_pending id announced k' (step w i).
Proof.
  unfold popup_pending, step. intros Hi (Hq & Hid & Hlog & Hst).
  destruct (crashed w).
  { exists k. split; [destruct (is_stop i); lia|]. split_and!; assumption. }
  destruct i; cbn [is_stop]; cbn in Hi;
    try (apply negb_true_iff, Z.eqb_neq in Hi);
    try (apply negb_true_iff in Hi).
  2: { (* stop *)
    exists (S k). split; [lia|].
    unfold_methods. rewrite Hst. destruct k; cbn.
    all: autorewrite with announce; rewrite Hlog, Hid.
    all: split_and!;
      try solve [ reflexivity
                | apply Forall_app; split;
                  [assumption | apply List.Forall_cons; [reflexivity | apply List.Forall_nil]] ].
    - rewrite app_nil_r. reflexivity.
    - rewrite <- app_assoc. f_equal.
      change ((StoppingListening, id) :: replicate k (StoppingListening, id))
        with (replicate (S k) (StoppingListening, id)).
      rewrite <- replicate_S_end. reflexivity. }
  all: exists k; (split; [lia|]).
  all: remember (match k with O => STARTING | S _ => STOPPING end) as st eqn:Hk.
  all: try match goal with
           | |- context [RunPostedFirst _] =>
               unfold handle, runRecreateFirst, exec;
               destruct (mainLooper w) as [|t q] eqn:Hl;
               [ cbn; rewrite ?Hl; split_and!; assumption
               | inversion Hq as [|? ? Ht Hq']; subst t; cbn; rewrite ?Hl;
                 split_and!; assumption ]
           end.
  all: try match goal with
           | native : NativeOutcome |- _ =>
               unfold handle, runPosted, exec;
               destruct (mainLooper w) as [|t q] eqn:Hl;
               [ cbn; rewrite Hl; split_and!; assumption
               | inversion Hq as [|? ? Ht Hq']; subst t; cbn;
                 unfold runStop; unfold_act; cbn;
                 destruct (listening (plugin w)); cbn;
                 [ destruct (speechRecognizer (plugin w)) |]; cbn;
                 split_and!; assumption ]
           end.
  all: unfold_methods; split_cases; autorewrite with announce.
  all: try discriminate; try congruence.
  all: try (split_and!; first [assumption | reflexivity | congruence]).
Qed.

Lemma popup_pending_run (id : Z) (announced : list (Phase * Z)) (inputs : list Input) :
  forall k w,
    forallb (leaves_session_alone id) inputs = true ->
    popup_pending id announced k w ->
    exists k',
      (k <= k' <= k + length (List.filter is_stop inputs))%nat
      /\ popup_pending id announced k' (run w inputs).
Proof.
  induction inputs as [|i inputs IH]; intros k w Hall Hw; cbn [run fold_left] in *.
  - exists k. split; [cbn; lia | exact Hw].
  - cbn in Hall. apply andb_prop in Hall as [Hi Hall].
    destruct (popup_pending_step id announced k w i Hi Hw) as (k1 & Hk1 & Hw1).
    destruct (IH k1 (step w i) Hall Hw1) as (k2 & Hk2 & Hw2).
    exists k2. split; [|exact Hw2].
    cbn [List.filter]. destruct (is_stop i); cbn [length]; lia.
Qed.

(** C10, amended.  A [start] with [popup = true] that passes its
    preconditions, on a plugin with nothing posted, increments the
    session id, emits the startingListening event and launches the
    activity without posting anything.  Whatever follows, short of
    another passing [start] or an engine error or result carrying that id
    (the popup installs no listener), no started, readyForNextSession or
    stopped event is emitted; a stoppingListening event of the session is
    emitted by each [stop] call and by nothing else, and the state is
    STARTING until the first such call and STOPPING from then on.  The
    activity result only answers the call and clears the listening flag. *)
Theorem popup_session_never_closes (env : Env) (c : PluginCall) (w : World)
    (rest : list Input) :
  crashed w = false ->
  mainLooper w = [] ->
  isRecognitionAvailable env = true ->
  getPermissionState env = GRANTED ->
  opt_popup c = Some true ->
  let id := wrap64 (sessionId (plugin w) + 1) in
  forallb (leaves_session_alone id) rest = true ->
  let w1 := step w (CallStart env c) in
  let w2 := run w1 rest in
  sessionId (plugin w1) = id
  /\ emitted w1 = emitted w ++ [(LISTENING_EVENT, startingPayload id)]
  /\ mainLooper w1 = []
  /\ length (activities w1) = S (length (activities w))
  /\ sessionId (plugin w2) = id
  /\ (exists k,
        (k <= length (List.filter is_stop rest))%nat
        /\ lifecycles (emitted w2)
           = lifecycles (emitted w)
             ++ (StartingListening, id) :: replicate k (StoppingListening, id)
        /\ state (plugin w2) = match k with O => STARTING | S _ => STOPPING end)
  /\ (forall v c' result,
        crashed v = false ->
        let v' := step v (PopupResult (Some c') result) in
        emitted v' = emitted v
        /\ mainLooper v' = mainLooper v
        /\ state (plugin v') = state (plugin v)
        /\ sessionId (plugin v') = sessionId (plugin v)
        /\ listening (plugin v') = false
        /\ exists reply, replies v' = replies v ++ [(c', reply)]).
Proof.
  intros Hc Hq Ha Hp Hpop id Hrest w1 w2.
  assert (H1 : sessionId (plugin w1) = id
               /\ emitted w1 = emitted w ++ [(LISTENING_EVENT, startingPayload id)]
               /\ mainLooper w1 = []
               /\ length (activities w1) = S (length (activities w))
               /\ state (plugin w1) = STARTING).
  { subst w1 id. unfold step. rewrite Hc. unfold_methods.
    rewrite Ha, Hp, Hpop. cbn. rewrite Hq, length_app. cbn.
    split_and!; try reflexivity. lia. }
  destruct H1 as (Hid1 & Hlog1 & Hq1 & Hact1 & Hst1).
  destruct (popup_pending_run id (lifecycles (emitted w) ++ [(StartingListening, id)])
              rest 0%nat w1 Hrest) as (k & Hk & Hq2 & Hid2 & Hlog2 & Hst2).
  { unfold popup_pending. rewrite Hq1, Hlog1. autorewrite with announce.
    split_and!; try assumption; try reflexivity. apply List.Forall_nil. }
  split_and!; try assumption.
  - exists k. split_and!; [lia | | exact Hst2].
    subst w2. rewrite Hlog2, <- app_assoc. reflexivity.
  - intros v c' result Hv v'. subst v'. unfold step. rewrite Hv. unfold_methods.
    split_cases; split_and!; try reflexivity; eexists; reflexivity.
Qed.

Lemma popup_session_never_closes_witness :
  let w2 := run initialWorld
              [CallStart device (popupCall 1);
               PopupResult (Some (popupCall 1))
                 (mkActivityResult RESULT_OK (Extras (Some [Some "hi"])));
               RunPosted NativeOk] in
  sessionId (plugin w2) = 1
  /\ exists k,
       (k <= 0)%nat
       /\ lifecycles (emitted w2) = (StartingListening, 1) :: replicate k (StoppingListening, 1)
       /\ state (plugin w2) = match k with O => STARTING | S _ => STOPPING end.
Proof.
  pose proof (popup_session_never_closes device (popupCall 1) initialWorld
                [PopupResult (Some (popupCall 1))
                   (mkActivityResult RESULT_OK (Extras (Some [Some "hi"])));
                 RunPosted NativeOk]
                eq_refl eq_refl eq_refl eq_refl eq_refl eq_refl) as H.
  cbv zeta in H. destruct H as (_ & _ & _ & _ & Hid & Hk & _).
  split; [exact Hid | exact Hk].
Defined.

(** C10, counterexample: [stop] during a popup session announces
    stoppingListening for the session and moves the state to STOPPING;
    the posted runnable finds nothing to stop, and the session stays
    there. *)
Lemma popup_session_stop_announced :
  let w := run initialWorld
             [CallStart device (popupCall 1); CallStop (plainCall 2); RunPosted NativeOk] in
  lifecycles (emitted w) = [(StartingListening, 1); (StoppingListening, 1)]
  /\ state (plugin w) = STOPPING
  /\ mainLooper w = [].
Proof. cbv zeta. split_and!; [vm_compute; reflexivity | run_scenario | run_scenario]. Qed.

(* ===================================================================== *)
(** * Further properties *)

(** ** The merge of the unstable text, continued *)

Lemma trimLeft_headOk (s : string) : headOk (trimLeft s) = true.
Proof.
  induction s as [|c s IH]; cbn; [reflexivity|].
  destruct (isWhitespace c) eqn:Hc; [exact IH | cbn; now rewrite Hc].
Qed.

Lemma headOk_trimLeft (s : string) : headOk s = true -> trimLeft s = s.
Proof.
  destruct s as [|c s]; cbn; [reflexivity|].
  now destruct (isWhitespace c).
Qed.

Lemma trimRight_headOk (s : string) : headOk s = true -> headOk (trimRight s) = true.
Proof.
  destruct s as [|c s]; cbn; [reflexivity|].
  intros Hc. destruct (trimRight s); cbn; [|exact Hc].
  destruct (isWhitespace c) eqn:E; [discriminate | cbn; now rewrite E].
Qed.

Lemma trimRight_idem (s : string) : trimRight (trimRight s) = trimRight s.
Proof.
  induction s as [|c s IH]; cbn; [reflexivity|].
  destruct (trimRight s) as [|c' t] eqn:Ht.
  - destruct (isWhitespace c) eqn:Hc; cbn; [reflexivity | now rewrite Hc].
  - cbn [trimRight] in *. now rewrite IH.
Qed.

Lemma trim_idem (s : string) : trim (trim s) = trim s.
Proof.
  unfold trim.
  rewrite (headOk_trimLeft (trimRight (trimLeft s))).
  - apply trimRight_idem.
  - apply trimRight_headOk, trimLeft_headOk.
Qed.

Lemma trim_headOk (s : string) : headOk (trim s) = true.
Proof. apply trimRight_headOk, trimLeft_headOk. Qed.

Lemma trimRight_trim (s : string) : trimRight (trim s) = trim s.
Proof. apply trimRight_idem. Qed.

Lemma trimRight_app (x y : string) :
  trimRight y = y -> y <> "" -> trimRight (x +:+ y) = x +:+ y.
Proof.
  intros Hy Hne. induction x as [|c x IH]; [exact Hy|].
  change (trimRight (String c (x +:+ y)) = String c (x +:+ y)).
  cbn [trimRight]. rewrite IH.
  destruct (x +:+ y) eqn:Hxy; [|reflexivity].
  destruct x; cbn in Hxy; [contradiction | discriminate].
Qed.

(** The merged first match is already trimmed when the stable text is
    not blank, and trims to the unstable text when it is. *)
Lemma trim_merged (a b : string) :
  trim a = a -> trim b = b -> b <> "" ->
  trim (a +:+ " " +:+ b) = if isEmpty a then b else a +:+ " " +:+ b.
Proof.
  intros Ha Hb Hne.
  assert (Hrb : trimRight b = b) by (rewrite <- Hb; apply trimRight_trim).
  destruct a as [|c a]; cbn [isEmpty].
  - unfold trim. cbn. exact Hb.
  - assert (Hh : headOk (String c a) = true) by (rewrite <- Ha; apply trim_headOk).
    unfold trim. rewrite headOk_trimLeft.
    + apply trimRight_app; [|discriminate].
      apply (trimRight_app " " b Hrb Hne).
    + exact Hh.
Qed.

Lemma built_ends_with_unstable (b : Bundle) (first unstable : string)
    (rest : list (option string)) :
  RESULTS_RECOGNITION b = Some (Some first :: rest) ->
  UNSTABLE_TEXT b = Some unstable ->
  trim unstable <> "" ->
  exists first',
    buildMatchesWithUnstableText b = Some (Some first' :: rest)
    /\ (trim first' = trim unstable
        \/ exists p, trim first' = p +:+ " " +:+ trim unstable).
Proof.
  intros Hr Hu Hne. unfold buildMatchesWithUnstableText. rewrite Hr, Hu.
  destruct (isEmpty (trim unstable)) eqn:He.
  { apply isEmpty_spec in He. contradiction. }
  destruct (String.eqb (trim first) (trim unstable)) eqn:Heq; cbn [orb].
  { exists first. split; [reflexivity|]. left. now apply String.eqb_eq. }
  destruct (endsWith (trim first) (" " +:+ trim unstable)) eqn:Hends.
  { exists first. split; [reflexivity|]. right. now apply endsWith_spec. }
  eexists. split; [reflexivity|].
  rewrite trim_merged by (auto using trim_idem).
  destruct (isEmpty (trim first)); [left; reflexivity | right; eexists; reflexivity].
Qed.

(** X1.  After the merge the first match, trimmed, is the trimmed unstable
    text or ends with a space followed by it: the unstable text of a
    bundle is never lost, whatever the stable text is. *)
Theorem merge_ends_with_unstable (b : Bundle) (first unstable : string)
    (rest : list (option string)) :
  RESULTS_RECOGNITION b = Some (Some first :: rest) ->
  UNSTABLE_TEXT b = Some unstable ->
  trim unstable <> "" ->
  exists first',
    buildMatchesWithUnstableText b = Some (Some first' :: rest)
    /\ (trim first' = trim unstable
        \/ exists p, trim first' = p +:+ " " +:+ trim unstable).
Proof. apply built_ends_with_unstable. Qed.

Lemma merge_ends_with_unstable_witness :
  exists first',
    buildMatchesWithUnstableText (mkBundle (Some [Some "  "; Some "b"]) (Some " wor "))
    = Some [Some first'; Some "b"]
    /\ (trim first' = trim " wor "
        \/ exists p, trim first' = p +:+ " " +:+ trim " wor ").
Proof.
  apply (merge_ends_with_unstable
           (mkBundle (Some [Some "  "; Some "b"]) (Some " wor ")) "  " " wor " [Some "b"]);
    [reflexivity | reflexivity | vm_compute; discriminate].
Defined.

(** X2.  Building the matches again from the built matches and the same
    unstable text changes nothing: the unstable text is appended once. *)
Theorem merge_idempotent (b : Bundle) :
  buildMatchesWithUnstableText
    (mkBundle (buildMatchesWithUnstableText b) (UNSTABLE_TEXT b))
  = buildMatchesWithUnstableText b.
Proof.
  destruct b as [[[|[first|] rest]|] [unstable|]]; try reflexivity.
  2: { unfold buildMatchesWithUnstableText; cbn [RESULTS_RECOGNITION UNSTABLE_TEXT].
       destruct (isEmpty (trim unstable)); reflexivity. }
  destruct (isEmpty (trim unstable)) eqn:He.
  { unfold buildMatchesWithUnstableText; cbn [RESULTS_RECOGNITION UNSTABLE_TEXT].
    rewrite He. reflexivity. }
  destruct (built_ends_with_unstable (mkBundle (Some (Some first :: rest)) (Some unstable))
              first unstable rest eq_refl eq_refl) as (first' & Hb & Hends).
  { intros H. apply isEmpty_spec in H. congruence. }
  rewrite Hb. unfold buildMatchesWithUnstableText.
  cbn [RESULTS_RECOGNITION UNSTABLE_TEXT]. rewrite He.
  destruct Hends as [-> | Hp].
  - now rewrite String.eqb_refl.
  - apply endsWith_spec in Hp. rewrite Hp, orb_true_r. reflexivity.
Qed.

(** ** The error mapper, continued *)

Lemma unknown_code_inj (n m : Z) :
  "UNKNOWN_" +:+ Integer_toString n = "UNKNOWN_" +:+ Integer_toString m -> n = m.
Proof.
  unfold Integer_toString. intros H.
  apply (inj pretty), (inj (String.app "UNKNOWN_")), H.
Qed.


(** ** The reason and error code of the lifecycle events *)

Lemma getErrorCode_inj (n m : Z) : getErrorCode n = getErrorCode m -> n = m.
Proof.
  unfold getErrorCode.
  repeat match goal with
         | |- context [?a =? ?b] => destruct (Z.eqb_spec a b)
         end;
    intros Heq; try congruence; try (cbv [String.append] in Heq; discriminate Heq).
  now apply unknown_code_inj.
Qed.

(** X3.  Two native error codes never share a symbolic code: the [code] of
    an error event identifies the native error, also outside the table,
    while all codes outside the table share one message. *)
Theorem getErrorCode_injective (n m : Z) :
  n <> m -> getErrorCode n <> getErrorCode m.
Proof. intros Hnm Heq. apply Hnm, getErrorCode_inj, Heq. Qed.

Lemma getErrorCode_injective_witness :
  getErrorCode 9999 <> getErrorCode (-9999)
  /\ getErrorText 9999 = getErrorText (-9999).
Proof.
  split; [apply getErrorCode_injective; lia | reflexivity].
Defined.

Lemma close_ok_cases (reason : string) (errorCode : option string) :
  close_ok reason errorCode ->
  (reason = "results" /\ errorCode = None)
  \/ (reason = "silence"
      /\ (errorCode = Some "NO_MATCH" \/ errorCode = Some "SPEECH_TIMEOUT"))
  \/ (reason = "error"
      /\ exists c, errorCode = Some c /\ c <> "NO_MATCH" /\ c <> "SPEECH_TIMEOUT").
Proof.
  intros [H | [[-> ->] | (n & -> & ->)]].
  - now left.
  - right. right. split; [reflexivity|]. eexists. split; [reflexivity|].
    split; discriminate.
  - right. unfold errorReason.
    destruct (Z.eqb_spec n ERROR_NO_MATCH) as [-> | Hn7]; cbn [orb].
    { left. split; [reflexivity|]. now left. }
    destruct (Z.eqb_spec n ERROR_SPEECH_TIMEOUT) as [-> | Hn6].
    { left. split; [reflexivity|]. now right. }
    right. split; [reflexivity|]. eexists. split; [reflexivity|].
    split; intros H.
    + apply Hn7, getErrorCode_inj. exact H.
    + apply Hn6, getErrorCode_inj. exact H.
Qed.

Lemma reason_starting (id : Z) : reason_fields (startingPayload id).
Proof. vm_compute. split; reflexivity. Qed.

Lemma reason_started (id : Z) : reason_fields (startedPayload id).
Proof. vm_compute. split; reflexivity. Qed.

Lemma reason_userStop (id : Z) : reason_fields (userStopPayload id).
Proof. vm_compute. right. split; reflexivity. Qed.

Ltac closing_cases H :=
  apply close_ok_cases in H;
  destruct H as [[-> ->] | [[-> [-> | ->]] | (-> & c & -> & Hc1 & Hc2)]].

Lemma reason_stopping (id : Z) (reason : string) (errorCode : option string) :
  close_ok reason errorCode -> reason_fields (stoppingPayload id reason errorCode).
Proof.
  intros H. closing_cases H.
  - vm_compute. left. left. split; reflexivity.
  - vm_compute. left. right. left. split; [reflexivity|]. left. reflexivity.
  - vm_compute. left. right. left. split; [reflexivity|]. right. reflexivity.
  - left. right. right. split; [reflexivity|]. exists c. split; [reflexivity|]. now split.
Qed.

Lemma reason_stopped (id : Z) (reason : string) (errorCode : option string) :
  close_ok reason errorCode -> reason_fields (stoppedPayload id reason errorCode).
Proof.
  intros H. closing_cases H.
  - vm_compute. left. split; reflexivity.
  - vm_compute. right. left. split; [reflexivity|]. left. reflexivity.
  - vm_compute. right. left. split; [reflexivity|]. right. reflexivity.
  - right. right. split; [reflexivity|]. exists c. split; [reflexivity|]. now split.
Qed.

Ltac head_task Hq :=
  repeat match goal with
         | Heq : mainLooper ?w = _, Hin : In _ (mainLooper ?w) |- _ => rewrite Heq in Hin
         | Heq : mainLooper ?w = _ |- context [mainLooper ?w] => rewrite Heq
         end;
  try match type of Hq with
      | forall t, ?t1 = t \/ In t ?l -> _ =>
          let Ht := fresh "Ht" in
          pose proof (Hq t1 (or_introl eq_refl)) as Ht; cbn in Ht;
          assert (forall t', In t' l -> task_ok t')
            by (intros; apply Hq; right; assumption)
      end.

Ltac in_cases :=
  repeat match goal with
         | H : In _ (_ ++ _) |- _ => apply in_app_iff in H; destruct H as [H | H]
         | H : In _ (_ :: _) |- _ => destruct H as [<- | H]
         | H : _ = _ \/ In _ _ |- _ => destruct H as [<- | H]
         | H : In _ [] |- _ => destruct H
         end.

Lemma close_ok_results : close_ok "results" None.
Proof. now left. Qed.

Lemma close_ok_start_failed : close_ok "error" (Some "START_FAILED").
Proof. right. now left. Qed.

Lemma close_ok_error (n : Z) : close_ok (errorReason n) (Some (getErrorCode n)).
Proof. right. right. now exists n. Qed.

Create HintDb reasons discriminated.
#[export] Hint Resolve reason_starting reason_started reason_userStop
  reason_stopping reason_stopped close_ok_results close_ok_start_failed
  close_ok_error : reasons.

Lemma reasons_ok_step (w : World) (i : Input) :
  reasons_ok w -> reasons_ok (step w i).
Proof.
  unfold reasons_ok, step. intros (Hlog & Hq).
  destruct (crashed w); [now split|].
  destruct i; unfold_methods; split_cases;
    (split; [intros e0 Hin Hname | intros t0 Hin]); head_task Hq; in_cases;
    try discriminate Hname; cbn [snd task_ok];
    solve [ auto with reasons | exact I ].
Qed.

(** X4.  In every run, the events that open a session (startingListening,
    started) carry the reason userStart and no error code; a stopped
    event carries the reason results with no error code, the reason
    silence with the code NO_MATCH or SPEECH_TIMEOUT, or the reason error
    with another code; a stoppingListening event carries one of these or
    the reason userStop with no error code.  So a session that [stop]
    ended is never reported as stopped with the reason userStop: its
    stopped event has the reason of the callback that closed it. *)
Theorem reason_and_code_by_state (inputs : list Input)
    (e : EventName * gmap string JSValue) :
  In e (emitted (run initialWorld inputs)) ->
  fst e = LISTENING_EVENT ->
  reason_fields (snd e).
Proof.
  intros Hin.
  assert (Hall : reasons_ok (run initialWorld inputs)).
  { apply (run_invariant reasons_ok).
    - apply reasons_ok_step.
    - split; intros ? []. }
  exact (proj1 Hall e Hin).
Qed.

Lemma reason_and_code_by_state_witness :
  closing_fields (stoppedPayload 1 "results" None).
Proof.
  apply (reason_and_code_by_state
           [CallStart device (plainCall 1); RunPosted NativeOk;
            CallStop (plainCall 2); RunPosted NativeOk;
            EngineResults (listenerOf (plainCall 1) 1) (mkBundle (Some [Some "hello"]) None);
            RunPosted NativeOk]
           (LISTENING_EVENT, stoppedPayload 1 "results" None)).
  - run_scenario. do 4 right. left. reflexivity.
  - reflexivity.
Defined.

(** ** The fields of the events *)

Lemma schema_listening (data : gmap string JSValue) (a : Phase * Z) :
  lifecycle (LISTENING_EVENT, data) = Some a -> schema (LISTENING_EVENT, data).
Proof. destruct a as [ph id]. intros H. now exists ph, id. Qed.

Lemma schema_ready (id : Z) : schema (READY_FOR_NEXT_SESSION_EVENT, readyPayload id).
Proof. now exists id. Qed.

Lemma schema_error (code message : string) (id : Z) :
  schema (ERROR_EVENT, errorPayload code message id).
Proof. now exists code, (Some message), id. Qed.

Lemma schema_start_failed (message : option string) (id : Z) :
  schema (ERROR_EVENT, startFailedPayload message id).
Proof. now exists "START_FAILED", message, id. Qed.

Lemma schema_recreate_failed (message : option string) (id : Z) :
  schema (ERROR_EVENT, recreateFailedPayload message id).
Proof. now exists "RECREATE_FAILED", message, id. Qed.

Lemma schema_partial (matches : list (option string)) :
  schema (PARTIAL_RESULTS_EVENT, matchesPayload matches).
Proof. now exists matches. Qed.

Lemma schema_segment (matches : list (option string)) :
  schema (SEGMENT_RESULTS_EVENT, matchesPayload matches).
Proof. now exists matches. Qed.

Lemma schema_end_of_segment : schema (END_OF_SEGMENT_EVENT, ∅).
Proof. reflexivity. Qed.

Create HintDb schema discriminated.
#[export] Hint Resolve schema_ready schema_error schema_start_failed
  schema_recreate_failed schema_partial schema_segment schema_end_of_segment : schema.
#[export] Hint Extern 1 (schema (LISTENING_EVENT, _)) =>
  (eapply schema_listening; autorewrite with announce; reflexivity) : schema.

Lemma schema_step (w : World) (i : Input) :
  Forall schema (emitted w) -> Forall schema (emitted (step w i)).
Proof.
  unfold step. intros Hinv.
  destruct (crashed w); [exact Hinv|].
  destruct i; unfold_methods; split_cases;
    rewrite ?Forall_app; repeat split;
    solve [assumption
          | repeat (apply List.Forall_cons; [solve [auto with schema]|]);
            apply List.Forall_nil].
Qed.

(** X5.  Every event of every run has the fields of its kind: a
    listeningState event a known [state] and an integer [sessionId]; a
    readyForNextSession event the [sessionId] alone; an error event a
    [code], a [sessionId] and, unless the exception had no message, a
    [message]; a partialResults or segmentResults event the array
    [matches] alone; an endOfSegmentedSession event nothing. *)
Theorem events_follow_schema (inputs : list Input)
    (e : EventName * gmap string JSValue) :
  In e (emitted (run initialWorld inputs)) -> schema e.
Proof.
  intros Hin.
  assert (Hall : Forall schema (emitted (run initialWorld inputs))).
  { apply (run_invariant (fun w => Forall schema (emitted w))).
    - apply schema_step.
    - apply List.Forall_nil. }
  rewrite List.Forall_forall in Hall. exact (Hall e Hin).
Qed.

Lemma events_follow_schema_witness :
  exists code message id,
    startFailedPayload None 1
    = put "sessionId" (JLong id)
        (putString "message" message (put "code" (JString code) ∅)).
Proof.
  apply (events_follow_schema
           [CallStart device (plainCall 1); RunPosted (CreateThrows None)]
           (ERROR_EVENT, startFailedPayload None 1)).
  run_scenario. right. left. reflexivity.
Defined.

(** ** What the queries say about [start] *)

Lemma put_inj (key : string) (a b : JSValue) (o o' : gmap string JSValue) :
  put key a o = put key b o' -> a = b.
Proof.
  intros H. apply (f_equal (lookup key)) in H. unfold put in H.
  rewrite !lookup_insert_eq in H. congruence.
Qed.

Lemma snoc_neq_self {A} (l : list A) (x : A) : l <> l ++ [x].
Proof.
  intros H. apply (f_equal length) in H. rewrite length_app in H. cbn in H. lia.
Qed.

Lemma resolve_inj (l : list (PluginCall * Reply)) (c : PluginCall)
    (a b : gmap string JSValue) :
  l ++ [(c, Resolve a)] = l ++ [(c, Resolve b)] -> a = b.
Proof. intros H. apply app_inv_head in H. congruence. Qed.

Lemma start_gate (env : Env) (c c1 c2 : PluginCall) (w : World) :
  (replies (exec (available env c1) w)
     = replies w ++ [(c1, Resolve (put "available" (JBool true) ∅))]
   /\ replies (exec (checkPermissions env c2) w)
      = replies w ++ [(c2, Resolve (put "speechRecognition" (JString "granted") ∅))])
  <-> emitted (exec (start env c) w)
      = emitted w
        ++ [(LISTENING_EVENT, startingPayload (wrap64 (sessionId (plugin w) + 1)))].
Proof.
  unfold available, checkPermissions, start, beginListening; unfold_act. cbn. split.
  - intros [Ha Hp].
    apply resolve_inj, put_inj in Ha. apply resolve_inj, put_inj in Hp.
    injection Ha as ->. cbn.
    destruct (getPermissionState env); try discriminate Hp. cbn.
    destruct (default false (opt_popup c)); reflexivity.
  - destruct (isRecognitionAvailable env); cbn.
    + destruct (getPermissionState env); cbn; intros H;
        try (now apply snoc_neq_self in H); split; reflexivity.
    + intros H. now apply snoc_neq_self in H.
Qed.

(** X6.  [start] opens a session exactly when, on the same platform,
    [available] reports true and [checkPermissions] reports "granted";
    and the callback of [requestPermissions] answers as
    [checkPermissions] does. *)
Theorem start_gate_matches_queries (env : Env) (c c1 c2 : PluginCall) (w : World) :
  ((replies (exec (available env c1) w)
      = replies w ++ [(c1, Resolve (put "available" (JBool true) ∅))]
    /\ replies (exec (checkPermissions env c2) w)
       = replies w ++ [(c2, Resolve (put "speechRecognition" (JString "granted") ∅))])
   <-> emitted (exec (start env c) w)
       = emitted w
         ++ [(LISTENING_EVENT, startingPayload (wrap64 (sessionId (plugin w) + 1)))])
  /\ permissionsCallback env c2 w = checkPermissions env c2 w.
Proof. split; [apply start_gate | reflexivity]. Qed.

(** ** The [readyForNext] field *)

(** X7.  No method reads [readyForNext]: whatever its value, a step emits the
    same events, gives the same replies, posts the same runnables and
    leaves the other fields the same.  In particular [start] does not
    wait for the recognizer to be recreated. *)
Theorem readyForNext_never_read (w : World) (i : Input) (v v' : bool) :
  with_readyForNext v' (step (with_readyForNext v w) i)
  = with_readyForNext v' (step w i).
Proof.
  unfold step, with_readyForNext. cbn.
  destruct (crashed w) eqn:Hc; [cbn; rewrite ?Hc; reflexivity|].
  destruct i; unfold_methods; split_cases; rewrite ?Hc; try reflexivity; try congruence;
    match goal with H : mainLooper _ = _ |- _ => rewrite H end; reflexivity.
Qed.

(** ** The partial snapshot across sessions *)

Lemma snapshot_step (w : World) (i : Input) :
  is_partial i = false ->
  previousPartialResults (plugin (step w i)) = previousPartialResults (plugin w).
Proof.
  unfold step. intros Hi.
  destruct (crashed w); [reflexivity|].
  destruct i; try discriminate Hi; unfold_methods; split_cases; reflexivity.
Qed.

Lemma snapshot_run (inputs : list Input) (w : World) :
  forallb (fun i => negb (is_partial i)) inputs = true ->
  previousPartialResults (plugin (run w inputs)) = previousPartialResults (plugin w).
Proof.
  revert w. induction inputs as [|i inputs IH]; intros w Hall; cbn; [reflexivity|].
  cbn in Hall. apply andb_true_iff in Hall as [Hi Hall].
  change (fold_left step inputs (step w i)) with (run (step w i) inputs).
  rewrite IH by exact Hall. apply snapshot_step. now apply negb_true_iff.
Qed.

(** X8.  Only [onPartialResults] touches the snapshot of the last partial
    result: neither [start] nor the end of a session resets it.  So a
    partial result that repeats the last one emitted is suppressed also
    when sessions have ended and begun in between, and whatever listener
    delivers it. *)
Theorem partial_snapshot_survives_sessions (w : World) (inputs : list Input)
    (l l' : SpeechRecognitionListener) (b : Bundle) (matches : list (option string)) :
  buildMatchesWithUnstableText b = Some matches ->
  matches <> [] ->
  forallb (fun i => negb (is_partial i)) inputs = true ->
  let w1 := run (step w (EnginePartialResults l b)) inputs in
  step w1 (EnginePartialResults l' b) = w1.
Proof.
  intros Hb Hne Hall w1.
  destruct matches as [|m ms]; [contradiction|].
  destruct (crashed w) eqn:Hc.
  { assert (Hw1 : w1 = w).
    { unfold w1, step. rewrite Hc. now apply run_crashed. }
    rewrite Hw1. unfold step. now rewrite Hc. }
  assert (Hprev : previousPartialResults (plugin w1) = m :: ms).
  { unfold w1. rewrite snapshot_run by exact Hall.
    unfold step. rewrite Hc. cbn. unfold onPartialResults. rewrite Hb.
    unfold_act. unfold matches_eqb.
    destruct (bool_decide_reflect (previousPartialResults (plugin w) = m :: ms)) as [Heq|Hneq];
      cbn; [exact Heq | reflexivity]. }
  unfold step. destruct (crashed w1); [reflexivity|].
  cbn. unfold onPartialResults. rewrite Hb.
  unfold_act. rewrite Hprev. unfold matches_eqb.
  rewrite bool_decide_eq_true_2 by reflexivity. reflexivity.
Qed.

Lemma partial_snapshot_survives_sessions_witness :
  let w0 := run initialWorld [CallStart device (streamingCall 1); RunPosted NativeOk] in
  let b := mkBundle (Some [Some "hello"]) None in
  let w1 := run (step w0 (EnginePartialResults (listenerOf (streamingCall 1) 1) b))
                [EngineError (listenerOf (streamingCall 1) 1) ERROR_NO_MATCH;
                 RunPosted NativeOk;
                 CallStart device (streamingCall 2); RunPosted NativeOk] in
  sessionId (plugin w1) = 2
  /\ state (plugin w1) = STARTED
  /\ step w1 (EnginePartialResults (listenerOf (streamingCall 2) 2) b) = w1.
Proof.
  cbv zeta. split_and!.
  - run_scenario.
  - run_scenario.
  - apply (partial_snapshot_survives_sessions _ _ _ _ _ [Some "hello"]).
    + reflexivity.
    + discriminate.
    + reflexivity.
Defined.

(** ** Exceptions on the main thread *)

Lemma recognizer_while_listening_step (w : World) (i : Input) :
  creation_succeeds i = true ->
  recognizer_while_listening w -> recognizer_while_listening (step w i).
Proof.
  unfold recognizer_while_listening, step. intros Hi (Hc & Hinv). rewrite Hc.
  destruct i; unfold_methods; split_cases;
    try discriminate Hi; split;
    solve [ assumption | reflexivity | intros; congruence | auto
          | exfalso; apply Hinv; congruence ].
Qed.

(** X9.  As long as no runnable fails to create a recognizer, the recognizer
    field is set whenever the [listening] flag is, so the runnable of
    [stopListening] never calls a method on null and no exception leaves
    a runnable (the native [stopListening] taken not to throw). *)
Theorem no_uncaught_exception (inputs : list Input) :
  forallb creation_succeeds inputs = true ->
  let w := run initialWorld inputs in
  crashed w = false
  /\ (listening (plugin w) = true -> speechRecognizer (plugin w) <> None).
Proof.
  intros Hall. cbv zeta.
  change (recognizer_while_listening (run initialWorld inputs)).
  assert (Hinit : recognizer_while_listening initialWorld).
  { split; [reflexivity | discriminate]. }
  revert Hall Hinit. generalize initialWorld.
  induction inputs as [|i inputs IH]; intros w Hall Hw; cbn; [exact Hw|].
  cbn in Hall. apply andb_true_iff in Hall as [Hi Hall].
  apply IH; [exact Hall|]. now apply recognizer_while_listening_step.
Qed.

Lemma no_uncaught_exception_witness :
  crashed (run initialWorld
             [CallStart device (plainCall 1); RunPosted NativeOk;
              CallStart device (plainCall 2); CallStop (plainCall 3);
              CallStart device (plainCall 4);
              RunPosted (StartListeningThrows None); RunPosted NativeOk]) = false.
Proof.
  pose proof (no_uncaught_exception
                [CallStart device (plainCall 1); RunPosted NativeOk;
                 CallStart device (plainCall 2); CallStop (plainCall 3);
                 CallStart device (plainCall 4);
                 RunPosted (StartListeningThrows None); RunPosted NativeOk]
                eq_refl) as H.
  cbv zeta in H. exact (proj1 H).
Defined.

(** The same run with a recognizer that cannot be created: the begin
    runnable of the superseded session 2 leaves the field null and the
    flag set, and the runnable of [stopListening] then throws. *)
Example uncaught_exception_after_failed_creation :
  crashed (run initialWorld
             [CallStart device (plainCall 1); RunPosted NativeOk;
              CallStart device (plainCall 2); CallStop (plainCall 3);
              CallStart device (plainCall 4);
              RunPosted (CreateThrows None); RunPosted NativeOk]) = true.
Proof. run_scenario. Qed.

(** ** The transitions of the state field *)

(** X10.  The state after a step is the one [next_state] gives: STARTING after
    a [start] that passes its preconditions, STARTED after the begin
    runnable has started the recognizer (whatever the state was, and
    whether or not its session is still the current one), STOPPING after
    a [stop] outside IDLE, IDLE after an error or final result of the
    current session or a failed start of it; every other step leaves
    the state as it is.  So the popup result, the runnables of [stop] and
    of [finishSession], partial and segment results and the callbacks
    of superseded sessions never change the state. *)
Theorem state_after_step (w : World) (i : Input) :
  state (plugin (step w i)) = next_state w i.
Proof.
  unfold next_state, step, start_passes, begins_listening, stops, closes_current, is_stop.
  destruct (crashed w); cbn.
  { destruct i; reflexivity. }
  destruct i; unfold_methods; split_cases; try reflexivity; try congruence.
Qed.

(** ** The effect of each step *)

(** A [start] that passes its preconditions: the next session id, the
    state STARTING, the startingListening event, and the intent handed to
    the popup activity or to the begin runnable. *)
Lemma start_effect (w : World) (env : Env) (c : PluginCall) :
  crashed w = false -> passes env ->
  let id := wrap64 (sessionId (plugin w) + 1) in
  step w (CallStart env c)
  = {| plugin := set_state STARTING (set_sessionId id (plugin w));
       mainLooper :=
         if default false (opt_popup c) then mainLooper w
         else mainLooper w
              ++ [BeginTask (startIntent env c) c (default false (opt_partialResults c)) id];
       emitted := emitted w ++ [(LISTENING_EVENT, startingPayload id)];
       replies := replies w;
       activities :=
         if default false (opt_popup c) then activities w ++ [(c, startIntent env c)]
         else activities w;
       crashed := false |}.
Proof.
  intros Hc (Ha & Hp) id. unfold step. rewrite Hc.
  unfold handle, start, beginListening, startIntent. rewrite Ha, Hp. unfold_act. cbn.
  destruct (default false (opt_popup c)); rewrite ?Hc; reflexivity.
Qed.

(** The begin runnable when the recognizer starts. *)
Lemma begin_effect (w : World) (intent : Intent) (c : PluginCall) (pr : bool) (id : Z)
    (rest : list Task) :
  crashed w = false ->
  mainLooper w = BeginTask intent c pr id :: rest ->
  step w (RunPosted NativeOk)
  = {| plugin :=
         set_state STARTED
           (set_listening true
              (set_speechRecognizer
                 (Some (mkRecognizer (mkListener id (Some c) pr) (Some intent)))
                 (plugin w)));
       mainLooper := rest;
       emitted := emitted w ++ [(LISTENING_EVENT, startedPayload id)];
       replies := replies w ++ (if pr then [(c, Resolve ∅)] else []);
       activities := activities w;
       crashed := false |}.
Proof.
  intros Hc Hq. unfold step. rewrite Hc. unfold_methods. rewrite Hq. cbn.
  destruct pr; cbn; rewrite ?Hc, ?app_nil_r; reflexivity.
Qed.

(** The begin runnable when the recognizer cannot be created or started,
    for the current session. *)
Lemma begin_failed_effect (w : World) (intent : Intent) (c : PluginCall) (pr : bool)
    (rest : list Task) (atCreate : bool) (message : option string) :
  crashed w = false ->
  mainLooper w = BeginTask intent c pr (sessionId (plugin w)) :: rest ->
  let id := sessionId (plugin w) in
  step w (RunPosted (if atCreate then CreateThrows message else StartListeningThrows message))
  = {| plugin := finished (plugin w);
       mainLooper := rest ++ [RecreateTask id "error" (Some "START_FAILED")];
       emitted :=
         emitted w
         ++ (ERROR_EVENT, startFailedPayload message id)
         :: stoppingUnlessAnnounced (plugin w) "error" (Some "START_FAILED");
       replies := replies w ++ [(c, Reject (Text message))];
       activities := activities w;
       crashed := false |}.
Proof.
  intros Hc Hq id. unfold step. rewrite Hc. unfold_methods. rewrite Hq.
  unfold stoppingUnlessAnnounced, finished.
  destruct atCreate; cbn; rewrite Z.eqb_refl; cbn;
    destruct (ListeningState_eqb (state (plugin w)) STOPPING); cbn;
    rewrite <- ?app_assoc, ?Hc; reflexivity.
Qed.

(** A call of [stop] outside IDLE. *)
Lemma stop_effect (w : World) (c : PluginCall) :
  crashed w = false ->
  state (plugin w) <> IDLE ->
  step w (CallStop c)
  = {| plugin := set_state STOPPING (plugin w);
       mainLooper := mainLooper w ++ [StopTask];
       emitted := emitted w ++ [(LISTENING_EVENT, userStopPayload (sessionId (plugin w)))];
       replies := replies w ++ [(c, Resolve ∅)];
       activities := activities w;
       crashed := false |}.
Proof.
  intros Hc Hst. unfold step. rewrite Hc. unfold_methods.
  destruct (state (plugin w)) eqn:Hs; [contradiction | | |]; cbn; rewrite ?Hc; reflexivity.
Qed.

(** The runnable of [stopListening] while the recognizer is listening. *)
Lemma stop_task_effect (w : World) (native : NativeOutcome) (r : SpeechRecognizer)
    (rest : list Task) :
  crashed w = false ->
  mainLooper w = StopTask :: rest ->
  listening (plugin w) = true ->
  speechRecognizer (plugin w) = Some r ->
  step w (RunPosted native)
  = {| plugin :=
         set_listening false
           (set_speechRecognizer (Some (mkRecognizer (recognitionListener r) None))
              (plugin w));
       mainLooper := rest;
       emitted := emitted w;
       replies := replies w;
       activities := activities w;
       crashed := false |}.
Proof.
  intros Hc Hq Hl Hr. unfold step. rewrite Hc. unfold_methods. rewrite Hq. cbn.
  rewrite Hl. cbn. rewrite Hr. cbn. rewrite ?Hc. reflexivity.
Qed.

(** [onResults] of a listener of the current session. *)
Lemma results_effect (w : World) (l : SpeechRecognitionListener) (results : Bundle) :
  crashed w = false ->
  listenerSessionId l = sessionId (plugin w) ->
  let matches := JSArray_of (buildMatchesWithUnstableText results) in
  step w (EngineResults l results)
  = {| plugin := finished (plugin w);
       mainLooper := mainLooper w ++ [RecreateTask (sessionId (plugin w)) "results" None];
       emitted :=
         emitted w
         ++ match call l with
            | Some _ =>
                if partialResults l
                then [(PARTIAL_RESULTS_EVENT, matchesPayload matches)] else []
            | None => []
            end
         ++ stoppingUnlessAnnounced (plugin w) "results" None;
       replies :=
         replies w
         ++ match call l with
            | Some c =>
                if partialResults l then []
                else [(c, Resolve (put "matches" (JArray matches)
                                     (put "status" (JString "success") ∅)))]
            | None => []
            end;
       activities := activities w;
       crashed := false |}.
Proof.
  intros Hc Hl matches. unfold step. rewrite Hc. unfold_methods.
  unfold stoppingUnlessAnnounced, finished. rewrite Hl.
  destruct (call l); [destruct (partialResults l)|]; cbn; rewrite Z.eqb_refl; cbn;
    destruct (ListeningState_eqb (state (plugin w)) STOPPING); cbn;
    rewrite <- ?app_assoc, ?app_nil_r, ?Hc; reflexivity.
Qed.

(** [onError] of a listener of the current session. *)
Lemma error_effect (w : World) (l : SpeechRecognitionListener) (error : Z) :
  crashed w = false ->
  listenerSessionId l = sessionId (plugin w) ->
  let id := sessionId (plugin w) in
  let code := getErrorCode error in
  step w (EngineError l error)
  = {| plugin := finished (plugin w);
       mainLooper := mainLooper w ++ [RecreateTask id (errorReason error) (Some code)];
       emitted :=
         emitted w
         ++ (ERROR_EVENT, errorPayload code (getErrorText error) id)
         :: stoppingUnlessAnnounced (plugin w) (errorReason error) (Some code);
       replies :=
         replies w
         ++ match call l with
            | Some c =>
                if partialResults l then []
                else [(c, Reject (Text (Some (getErrorText error))))]
            | None => []
            end;
       activities := activities w;
       crashed := false |}.
Proof.
  intros Hc Hl id code. unfold step. rewrite Hc. unfold_methods.
  unfold stoppingUnlessAnnounced, finished. rewrite Hl.
  destruct (call l); [destruct (partialResults l)|]; cbn; rewrite Z.eqb_refl; cbn;
    destruct (ListeningState_eqb (state (plugin w)) STOPPING); cbn;
    rewrite <- ?app_assoc, ?app_nil_r, ?Hc; reflexivity.
Qed.

(** The recreate runnable when the recognizer is created. *)
Lemma recreate_effect (w : World) (id : Z) (reason : string) (errorCode : option string)
    (rest : list Task) :
  crashed w = false ->
  mainLooper w = RecreateTask id reason errorCode :: rest ->
  step w (RunPosted NativeOk)
  = {| plugin :=
         set_readyForNext true
           (set_speechRecognizer
              (Some (mkRecognizer (mkListener (sessionId (plugin w)) None false) None))
              (plugin w));
       mainLooper := rest;
       emitted :=
         emitted w
         ++ [(READY_FOR_NEXT_SESSION_EVENT, readyPayload id);
             (LISTENING_EVENT, stoppedPayload id reason errorCode)];
       replies := replies w;
       activities := activities w;
       crashed := false |}.
Proof.
  intros Hc Hq. unfold step. rewrite Hc. unfold_methods. rewrite Hq. cbn.
  rewrite <- ?app_assoc, ?Hc. reflexivity.
Qed.

(** ** Whole sessions *)

(** Rewriting the innermost step of a run with the lemma for it. *)
Ltac on_innermost_step tac :=
  match goal with
  | |- context [step ?w ?i] =>
      lazymatch w with
      | context [step _ _] => fail
      | _ => tac w i
      end
  end.

Ltac do_start Hc Hpass Hpop Hq :=
  on_innermost_step ltac:(fun w i => rewrite (start_effect w _ _ Hc Hpass));
  cbv zeta; rewrite ?Hpop, ?Hq; cbn [app].
Ltac do_begin :=
  on_innermost_step ltac:(fun w i => rewrite (begin_effect w _ _ _ _ _ eq_refl eq_refl)).
Ltac do_begin_failed atCreate message :=
  on_innermost_step
    ltac:(fun w i =>
            rewrite (begin_failed_effect w _ _ _ _ atCreate message eq_refl eq_refl)).
Ltac do_stop :=
  on_innermost_step
    ltac:(fun w i =>
            lazymatch i with
            | CallStop ?c => rewrite (stop_effect w c eq_refl ltac:(discriminate))
            end).
Ltac do_stop_task :=
  on_innermost_step
    ltac:(fun w i =>
            lazymatch i with
            | RunPosted ?native =>
                rewrite (stop_task_effect w native _ _ eq_refl eq_refl eq_refl eq_refl)
            end).
Ltac do_results :=
  on_innermost_step
    ltac:(fun w i =>
            lazymatch i with
            | EngineResults ?l ?r => rewrite (results_effect w l r eq_refl eq_refl)
            end).
Ltac do_error :=
  on_innermost_step
    ltac:(fun w i =>
            lazymatch i with
            | EngineError ?l ?e => rewrite (error_effect w l e eq_refl eq_refl)
            end).
Ltac do_recreate :=
  on_innermost_step
    ltac:(fun w i => rewrite (recreate_effect w _ _ _ _ eq_refl eq_refl)).

Ltac session_done :=
  cbv zeta;
  unfold finished, stoppingUnlessAnnounced, listenerOf, restedPlugin;
  cbn [plugin mainLooper emitted replies activities crashed
       speechRecognizer listening previousPartialResults state sessionId readyForNext
       set_speechRecognizer set_listening set_previousPartialResults set_state
       set_sessionId set_readyForNext
       listenerSessionId call partialResults recognitionListener capturing
       ListeningState_eqb app fmap option_fmap option_map];
  rewrite <- ?app_assoc; cbn [app].

(** X11.  A session that ends with a final result.  From any state with an
    idle main thread: [start], the begin runnable, [onResults] on the
    listener that runnable installed, the recreate runnable.  The events
    are startingListening, started, the final result as a partialResults
    event when the call streams, stoppingListening, readyForNextSession,
    stopped, all with the new session id and the reason results; the
    call is answered once, with the matches, or with no data at the
    begin when it streams; and the plugin is back in IDLE with a fresh
    recognizer. *)
Theorem session_with_results (w : World) (env : Env) (c : PluginCall) (results : Bundle) :
  quiet w -> passes env -> default false (opt_popup c) = false ->
  let id := wrap64 (sessionId (plugin w) + 1) in
  let streaming := default false (opt_partialResults c) in
  let matches := JSArray_of (buildMatchesWithUnstableText results) in
  let w2 := run w [CallStart env c; RunPosted NativeOk] in
  let w4 := run w2 [EngineResults (listenerOf c id) results; RunPosted NativeOk] in
  speechRecognizer (plugin w2)
  = Some (mkRecognizer (listenerOf c id) (Some (startIntent env c)))
  /\ emitted w4
     = emitted w
       ++ [(LISTENING_EVENT, startingPayload id); (LISTENING_EVENT, startedPayload id)]
       ++ (if streaming then [(PARTIAL_RESULTS_EVENT, matchesPayload matches)] else [])
       ++ [(LISTENING_EVENT, stoppingPayload id "results" None);
           (READY_FOR_NEXT_SESSION_EVENT, readyPayload id);
           (LISTENING_EVENT, stoppedPayload id "results" None)]
  /\ replies w4
     = replies w
       ++ [(c, if streaming then Resolve ∅
               else Resolve (put "matches" (JArray matches)
                               (put "status" (JString "success") ∅)))]
  /\ plugin w4 = restedPlugin id (previousPartialResults (plugin w))
  /\ mainLooper w4 = [].
Proof.
  intros (Hc & Hq) Hpass Hpop. cbv zeta. unfold run; cbn [fold_left].
  do_start Hc Hpass Hpop Hq. do_begin. split; [reflexivity|].
  unfold listenerOf. do_results. do_recreate. session_done.
  destruct (default false (opt_partialResults c)); split_and!; reflexivity.
Qed.

Lemma session_with_results_witness :
  quiet initialWorld
  /\ passes device
  /\ mainLooper
       (run (run initialWorld [CallStart device (plainCall 1); RunPosted NativeOk])
            [EngineResults
               (listenerOf (plainCall 1) (wrap64 (sessionId (plugin initialWorld) + 1)))
               (mkBundle (Some [Some "hello"]) None);
             RunPosted NativeOk])
     = [].
Proof.
  assert (Hq : quiet initialWorld) by (split; reflexivity).
  assert (Hp : passes device) by (split; reflexivity).
  split_and!; [exact Hq | exact Hp |].
  apply (session_with_results initialWorld device (plainCall 1)
           (mkBundle (Some [Some "hello"]) None) Hq Hp eq_refl).
Defined.

(** X12.  A session that ends with an error of the engine.  The error event
    comes first, with the mapped code and message; stoppingListening and
    stopped carry the reason of the error and its code; a call that does
    not stream is rejected with the message, one that streams has been
    resolved at the begin and hears of the error by the events only. *)
Theorem session_with_error (w : World) (env : Env) (c : PluginCall) (error : Z) :
  quiet w -> passes env -> default false (opt_popup c) = false ->
  let id := wrap64 (sessionId (plugin w) + 1) in
  let streaming := default false (opt_partialResults c) in
  let code := getErrorCode error in
  let reason := errorReason error in
  let w4 := run w [CallStart env c; RunPosted NativeOk;
                   EngineError (listenerOf c id) error; RunPosted NativeOk] in
  emitted w4
  = emitted w
    ++ [(LISTENING_EVENT, startingPayload id);
        (LISTENING_EVENT, startedPayload id);
        (ERROR_EVENT, errorPayload code (getErrorText error) id);
        (LISTENING_EVENT, stoppingPayload id reason (Some code));
        (READY_FOR_NEXT_SESSION_EVENT, readyPayload id);
        (LISTENING_EVENT, stoppedPayload id reason (Some code))]
  /\ replies w4
     = replies w
       ++ [(c, if streaming then Resolve ∅
               else Reject (Text (Some (getErrorText error))))]
  /\ plugin w4 = restedPlugin id (previousPartialResults (plugin w))
  /\ mainLooper w4 = [].
Proof.
  intros (Hc & Hq) Hpass Hpop. cbv zeta. unfold run; cbn [fold_left].
  do_start Hc Hpass Hpop Hq. do_begin.
  unfold listenerOf. do_error. do_recreate. session_done.
  destruct (default false (opt_partialResults c)); split_and!; reflexivity.
Qed.

Lemma session_with_error_witness :
  quiet initialWorld
  /\ passes device
  /\ mainLooper
       (run initialWorld
            [CallStart device (plainCall 1); RunPosted NativeOk;
             EngineError
               (listenerOf (plainCall 1) (wrap64 (sessionId (plugin initialWorld) + 1)))
               ERROR_NETWORK;
             RunPosted NativeOk])
     = [].
Proof.
  assert (Hq : quiet initialWorld) by (split; reflexivity).
  assert (Hp : passes device) by (split; reflexivity).
  split_and!; [exact Hq | exact Hp |].
  apply (session_with_error initialWorld device (plainCall 1) ERROR_NETWORK Hq Hp eq_refl).
Defined.

(** X13.  A session that the user stops.  [stop] announces stoppingListening
    with the reason userStop and its runnable stops the recognizer; the
    final result then closes the session without a second
    stoppingListening event, and the stopped event carries the reason
    results, not the reason of the stoppingListening event. *)
Theorem session_stopped_by_user (w : World) (env : Env) (c c' : PluginCall)
    (native : NativeOutcome) (results : Bundle) :
  quiet w -> passes env -> default false (opt_popup c) = false ->
  let id := wrap64 (sessionId (plugin w) + 1) in
  let streaming := default false (opt_partialResults c) in
  let matches := JSArray_of (buildMatchesWithUnstableText results) in
  let w4 := run w [CallStart env c; RunPosted NativeOk; CallStop c'; RunPosted native] in
  let w6 := run w4 [EngineResults (listenerOf c id) results; RunPosted NativeOk] in
  (state (plugin w4) = STOPPING
   /\ listening (plugin w4) = false
   /\ (capturing <$> speechRecognizer (plugin w4)) = Some None)
  /\ emitted w6
     = emitted w
       ++ [(LISTENING_EVENT, startingPayload id);
           (LISTENING_EVENT, startedPayload id);
           (LISTENING_EVENT, userStopPayload id)]
       ++ (if streaming then [(PARTIAL_RESULTS_EVENT, matchesPayload matches)] else [])
       ++ [(READY_FOR_NEXT_SESSION_EVENT, readyPayload id);
           (LISTENING_EVENT, stoppedPayload id "results" None)]
  /\ replies w6
     = replies w
       ++ (if streaming then [(c, Resolve ∅)] else [])
       ++ [(c', Resolve ∅)]
       ++ (if streaming then []
           else [(c, Resolve (put "matches" (JArray matches)
                                (put "status" (JString "success") ∅)))])
  /\ plugin w6 = restedPlugin id (previousPartialResults (plugin w))
  /\ mainLooper w6 = [].
Proof.
  intros (Hc & Hq) Hpass Hpop. cbv zeta. unfold run; cbn [fold_left].
  do_start Hc Hpass Hpop Hq. do_begin. do_stop. do_stop_task.
  split; [split_and!; reflexivity|].
  unfold listenerOf. do_results. do_recreate. session_done.
  destruct (default false (opt_partialResults c)); split_and!; reflexivity.
Qed.

Lemma session_stopped_by_user_witness :
  quiet initialWorld
  /\ passes device
  /\ mainLooper
       (run (run initialWorld
               [CallStart device (plainCall 1); RunPosted NativeOk;
                CallStop (plainCall 2); RunPosted NativeOk])
            [EngineResults
               (listenerOf (plainCall 1) (wrap64 (sessionId (plugin initialWorld) + 1)))
               (mkBundle (Some [Some "hello"]) None);
             RunPosted NativeOk])
     = [].
Proof.
  assert (Hq : quiet initialWorld) by (split; reflexivity).
  assert (Hp : passes device) by (split; reflexivity).
  split_and!; [exact Hq | exact Hp |].
  apply (session_stopped_by_user initialWorld device (plainCall 1) (plainCall 2) NativeOk
           (mkBundle (Some [Some "hello"]) None) Hq Hp eq_refl).
Defined.

(** X14.  A session whose recognizer cannot be created or started.  There is
    no started event: the START_FAILED error event is followed by
    stoppingListening, readyForNextSession and stopped with the reason
    error, and the call is rejected with the message of the exception,
    also when it streams. *)
Theorem session_start_failed (w : World) (env : Env) (c : PluginCall)
    (atCreate : bool) (message : option string) :
  quiet w -> passes env -> default false (opt_popup c) = false ->
  let id := wrap64 (sessionId (plugin w) + 1) in
  let native := if atCreate then CreateThrows message else StartListeningThrows message in
  let w3 := run w [CallStart env c; RunPosted native; RunPosted NativeOk] in
  emitted w3
  = emitted w
    ++ [(LISTENING_EVENT, startingPayload id);
        (ERROR_EVENT, startFailedPayload message id);
        (LISTENING_EVENT, stoppingPayload id "error" (Some "START_FAILED"));
        (READY_FOR_NEXT_SESSION_EVENT, readyPayload id);
        (LISTENING_EVENT, stoppedPayload id "error" (Some "START_FAILED"))]
  /\ replies w3 = replies w ++ [(c, Reject (Text message))]
  /\ plugin w3 = restedPlugin id (previousPartialResults (plugin w))
  /\ mainLooper w3 = [].
Proof.
  intros (Hc & Hq) Hpass Hpop. cbv zeta. unfold run; cbn [fold_left].
  do_start Hc Hpass Hpop Hq. do_begin_failed atCreate message. do_recreate. session_done.
  split_and!; reflexivity.
Qed.

Lemma session_start_failed_witness :
  quiet initialWorld
  /\ passes device
  /\ mainLooper
       (run initialWorld
            [CallStart device (streamingCall 1);
             RunPosted (if false then CreateThrows (Some "busy")
                        else StartListeningThrows (Some "busy"));
             RunPosted NativeOk])
     = [].
Proof.
  assert (Hq : quiet initialWorld) by (split; reflexivity).
  assert (Hp : passes device) by (split; reflexivity).
  split_and!; [exact Hq | exact Hp |].
  apply (session_start_failed initialWorld device (streamingCall 1) false (Some "busy")
           Hq Hp eq_refl).
Defined.

(** ** Options and empty results *)

(** X15.  The intent of a session.  A [start] that passes its preconditions
    hands [startIntent] to the popup activity when the call asks for the
    popup and otherwise to the begin runnable, never to both.  Missing
    options take their defaults (the locale of the device, five
    results, no partial results); the segmented session is asked for
    exactly when [allowForSilence] is positive, and a value of zero or
    less is ignored without an error. *)
Theorem start_hands_over_intent (w : World) (env : Env) (c : PluginCall) :
  crashed w = false -> passes env ->
  let w' := step w (CallStart env c) in
  let intent := startIntent env c in
  let id := wrap64 (sessionId (plugin w) + 1) in
  (if default false (opt_popup c)
   then activities w' = activities w ++ [(c, intent)] /\ mainLooper w' = mainLooper w
   else activities w' = activities w
        /\ mainLooper w'
           = mainLooper w ++ [BeginTask intent c (EXTRA_PARTIAL_RESULTS intent) id])
  /\ (forall n, EXTRA_SEGMENTED_SESSION intent = Some n
                <-> opt_allowForSilence c = Some n /\ 0 < n)
  /\ (opt_language c = None -> EXTRA_LANGUAGE intent = defaultLocale env)
  /\ (opt_maxResults c = None -> EXTRA_MAX_RESULTS intent = 5)
  /\ (opt_partialResults c = None ->
      EXTRA_PARTIAL_RESULTS intent = false /\ DICTATION_MODE intent = false)
  /\ EXTRA_PROMPT intent = opt_prompt c.
Proof.
  intros Hc Hpass. cbv zeta. rewrite (start_effect w env c Hc Hpass). cbv zeta.
  split_and!.
  - destruct (default false (opt_popup c)); split; reflexivity.
  - intros n. unfold startIntent. cbn [EXTRA_SEGMENTED_SESSION].
    destruct (opt_allowForSilence c) as [a|]; cbv [default from_option id].
    + destruct (0 <? a) eqn:E.
      * apply Z.ltb_lt in E. split; [intros [= <-]; auto | intros [[= <-] _]; reflexivity].
      * apply Z.ltb_ge in E. split; [discriminate | intros [[= <-] Hn]; lia].
    + split; [discriminate | intros [? _]; discriminate].
  - intros H. unfold startIntent. cbn. now rewrite H.
  - intros H. unfold startIntent. cbn. now rewrite H.
  - intros H. unfold startIntent. cbn. now rewrite H.
  - reflexivity.
Qed.

Lemma start_hands_over_intent_witness :
  EXTRA_SEGMENTED_SESSION
    (startIntent device
       {| callId := 1; opt_language := None; opt_maxResults := None; opt_prompt := None;
          opt_partialResults := None; opt_popup := None; opt_allowForSilence := Some 0 |})
  = None.
Proof.
  pose proof (start_hands_over_intent initialWorld device
       {| callId := 1; opt_language := None; opt_maxResults := None; opt_prompt := None;
          opt_partialResults := None; opt_popup := None; opt_allowForSilence := Some 0 |}
       eq_refl (conj eq_refl eq_refl)) as H.
  cbv zeta in H. destruct H as (_ & _ & _ & _ & _ & _).
  reflexivity.
Defined.

Lemma built_empty (unstable : option string) :
  JSArray_of (buildMatchesWithUnstableText (mkBundle (Some []) unstable)) = [].
Proof. reflexivity. Qed.

(** X16.  Null and empty results.  [onPartialResults] ignores both;
    [onSegmentResults] ignores a null list and forwards an empty one;
    [onResults] treats both alike: the session is closed and the matches
    given to the call, or emitted when it streams, are the empty
    array. *)
Theorem null_and_empty_results (w : World) (l : SpeechRecognitionListener)
    (unstable : option string) :
  let null := mkBundle None unstable in
  let empty := mkBundle (Some []) unstable in
  onPartialResults l null w = (tt, w)
  /\ onPartialResults l empty w = (tt, w)
  /\ onSegmentResults l null w = (tt, w)
  /\ emitted (exec (onSegmentResults l empty) w)
     = emitted w ++ [(SEGMENT_RESULTS_EVENT, matchesPayload [])]
  /\ onResults l null w = onResults l empty w
  /\ (crashed w = false ->
      listenerSessionId l = sessionId (plugin w) ->
      let w' := step w (EngineResults l empty) in
      state (plugin w') = IDLE
      /\ (forall c, call l = Some c -> partialResults l = true ->
                    In (PARTIAL_RESULTS_EVENT, matchesPayload []) (emitted w'))
      /\ (forall c, call l = Some c -> partialResults l = false ->
                    replies w'
                    = replies w
                      ++ [(c, Resolve (put "matches" (JArray [])
                                         (put "status" (JString "success") ∅)))])).
Proof.
  cbv zeta. split_and!; try reflexivity.
  intros Hc Hl. rewrite (results_effect w l _ Hc Hl). cbv zeta. rewrite built_empty.
  cbn [plugin emitted replies]. split_and!.
  - reflexivity.
  - intros c Hcall Hpr. rewrite Hcall, Hpr, !in_app_iff. right. left. left. reflexivity.
  - intros c Hcall Hpr. rewrite Hcall, Hpr. reflexivity.
Qed.

Lemma null_and_empty_results_witness :
  state (plugin (step initialWorld
                   (EngineResults (listenerOf (plainCall 1) 0) (mkBundle (Some []) None))))
  = IDLE.
Proof.
  pose proof (null_and_empty_results initialWorld (listenerOf (plainCall 1) 0) None) as H.
  cbv zeta in H. destruct H as (_ & _ & _ & _ & _ & H).
  destruct (H eq_refl eq_refl) as (Hs & _). exact Hs.
Defined.

(** ** The queue of the main thread runs out *)

Lemma emitted_grows_step (w : World) (i : Input) :
  exists new, emitted (step w i) = emitted w ++ new.
Proof.
  unfold step. destruct (crashed w).
  { exists []. now rewrite app_nil_r. }
  destruct i; unfold_methods; split_cases; rewrite <- ?app_assoc;
    first [ eexists; reflexivity | exists []; now rewrite app_nil_r ].
Qed.

Lemma emitted_grows_run (inputs : list Input) (w : World) :
  exists new, emitted (run w inputs) = emitted w ++ new.
Proof.
  revert w. induction inputs as [|i inputs IH]; intros w; cbn.
  - exists []. now rewrite app_nil_r.
  - destruct (IH (step w i)) as (new' & Hnew').
    destruct (emitted_grows_step w i) as (new & Hnew).
    exists (new ++ new').
    change (fold_left step inputs (step w i)) with (run (step w i) inputs).
    rewrite Hnew', Hnew, app_assoc. reflexivity.
Qed.

Lemma runsNeededAll_app (q q' : list Task) :
  runsNeededAll (q ++ q') = (runsNeededAll q + runsNeededAll q')%nat.
Proof.
  induction q as [|t q IH]; cbn; [reflexivity|]. unfold runsNeededAll in *. cbn.
  rewrite IH. lia.
Qed.

(** One run of the main thread: the head of the queue is gone, what it
    posts needs fewer runs than it did, and a recreate runnable has
    emitted its stopped event. *)
Lemma run_posted_step (w : World) (native : NativeOutcome) (t : Task) (rest : list Task) :
  crashed w = false ->
  mainLooper w = t :: rest ->
  let w' := step w (RunPosted native) in
  crashed w' = true
  \/ exists posted,
       mainLooper w' = rest ++ posted
       /\ (runsNeededAll posted < runsNeeded t)%nat
       /\ (forall e, owes t e -> In e (emitted w')).
Proof.
  intros Hc Hq. cbv zeta. unfold step. rewrite Hc. unfold_methods. rewrite Hq.
  destruct t; destruct native; split_cases;
    first [ left; reflexivity
          | right; exists []; rewrite app_nil_r;
            split_and!; [reflexivity | cbn; lia | cbn; intros e He; subst; try contradiction;
                                                  rewrite ?in_app_iff; cbn; auto 8]
          | right; eexists; split_and!;
            [reflexivity | cbn; lia | cbn; intros e He; contradiction ] ].
Qed.

(** X17.  Once the bridge and the engine are silent, the main thread gets
    through its queue: after as many runs as the queue needs (two for a
    begin runnable, one for any other), and unless an exception has
    left a runnable, nothing is pending and every recreate runnable that
    was pending has emitted its stopped event.  So a session that
    [finishSession] has closed gets its stopped event whatever else was
    posted before. *)
Theorem pending_runnables_run_out (natives : list NativeOutcome) (w : World) :
  (runsNeededAll (mainLooper w) <= length natives)%nat ->
  let w' := run w (map RunPosted natives) in
  crashed w' = false ->
  mainLooper w' = []
  /\ forall t e, In t (mainLooper w) -> owes t e -> In e (emitted w').
Proof.
  revert w. induction natives as [|native natives IH]; intros w Hlen; cbv zeta; cbn [map run fold_left].
  - intros _. destruct (mainLooper w) as [|t q] eqn:Hq.
    + split; [reflexivity | intros t e []].
    + exfalso. unfold runsNeededAll in Hlen. cbn in Hlen. destruct t; cbn in Hlen; lia.
  - change (fold_left step ?xs ?v) with (run v xs).
    intros Hfin.
    destruct (crashed w) eqn:Hc.
    { unfold step in Hfin at 1. rewrite Hc in Hfin.
      rewrite run_crashed in Hfin by exact Hc. congruence. }
    destruct (mainLooper w) as [|t rest] eqn:Hq.
    { rewrite step_nothing_posted in * by exact Hq.
      destruct (IH w) as (Hq' & _); [rewrite Hq; cbn; lia | exact Hfin |].
      split; [exact Hq' | intros t e []]. }
    destruct (run_posted_step w native t rest Hc Hq) as [Hc1 | (posted & Hq1 & Hless & Hemit)].
    { rewrite run_crashed in Hfin by exact Hc1. congruence. }
    destruct (IH (step w (RunPosted native))) as (Hq' & Howes).
    { rewrite Hq1, runsNeededAll_app.
      change (runsNeededAll (t :: rest)) with (runsNeeded t + runsNeededAll rest)%nat in Hlen.
      cbn [length] in Hlen. lia. }
    { exact Hfin. }
    split; [exact Hq'|].
    intros t' e [<- | Hin] He.
    + destruct (emitted_grows_run (map RunPosted natives) (step w (RunPosted native)))
        as (new & ->).
      apply in_app_iff. left. apply Hemit, He.
    + apply (Howes t'); [|exact He]. rewrite Hq1. apply in_app_iff. left. exact Hin.
Qed.

Lemma pending_runnables_run_out_witness :
  let w := run initialWorld
             [CallStart device (plainCall 1); RunPosted NativeOk;
              CallStart device (plainCall 2); CallStop (plainCall 3);
              EngineError (listenerOf (plainCall 1) 2) ERROR_CLIENT] in
  let w' := run w (map RunPosted [NativeOk; NativeOk; NativeOk; NativeOk]) in
  mainLooper w = [BeginTask (startIntent device (plainCall 2)) (plainCall 2) false 2;
                  StopTask; RecreateTask 2 "error" (Some "CLIENT")]
  /\ mainLooper w' = []
  /\ In (LISTENING_EVENT, stoppedPayload 2 "error" (Some "CLIENT")) (emitted w').
Proof.
  cbv zeta.
  assert (Hq : mainLooper (run initialWorld
             [CallStart device (plainCall 1); RunPosted NativeOk;
              CallStart device (plainCall 2); CallStop (plainCall 3);
              EngineError (listenerOf (plainCall 1) 2) ERROR_CLIENT])
          = [BeginTask (startIntent device (plainCall 2)) (plainCall 2) false 2;
             StopTask; RecreateTask 2 "error" (Some "CLIENT")]).
  { run_scenario. }
  split; [exact Hq|].
  destruct (pending_runnables_run_out [NativeOk; NativeOk; NativeOk; NativeOk]
              (run initialWorld
                 [CallStart device (plainCall 1); RunPosted NativeOk;
                  CallStart device (plainCall 2); CallStop (plainCall 3);
                  EngineError (listenerOf (plainCall 1) 2) ERROR_CLIENT])) as (H1 & H2).
  - rewrite Hq. cbn. lia.
  - run_scenario.
  - split; [exact H1|].
    apply (H2 (RecreateTask 2 "error" (Some "CLIENT"))).
    + rewrite Hq. right. right. left. reflexivity.
    + reflexivity.
Defined.

(** ** Superseded sessions stay superseded *)

Lemma session_id_grows (inputs : list Input) (w : World) :
  0 <= sessionId (plugin w) ->
  sessionId (plugin w) + Z.of_nat (length inputs) <= Long_MAX_VALUE ->
  sessionId (plugin w) <= sessionId (plugin (run w inputs)).
Proof.
  intros Hlo Hhi. destruct (session_ids_from inputs w Hlo Hhi) as (-> & _). lia.
Qed.

(** X18.  The session counter never comes back to an earlier id (short of
    the 2^63 calls that would overflow it), so a listener of a
    superseded session stays stale for ever: whatever happens
    afterwards, its [onError] and [onResults] leave every field of the
    plugin as it is and post nothing.  A callback of an old session can
    never close a later one. *)
Theorem superseded_listener_never_finishes (w : World) (inputs : list Input)
    (l : SpeechRecognitionListener) (i : Input) :
  0 <= sessionId (plugin w) ->
  sessionId (plugin w) + Z.of_nat (length inputs) <= Long_MAX_VALUE ->
  listenerSessionId l < sessionId (plugin w) ->
  (exists error, i = EngineError l error) \/ (exists results, i = EngineResults l results) ->
  let w' := run w inputs in
  plugin (step w' i) = plugin w' /\ mainLooper (step w' i) = mainLooper w'.
Proof.
  intros Hlo Hhi Hold Hi. cbv zeta.
  pose proof (session_id_grows inputs w Hlo Hhi) as Hgrow.
  set (w' := run w inputs) in *.
  assert (Hstale : listenerSessionId l <> sessionId (plugin w')) by lia.
  unfold step. destruct (crashed w'); [split; reflexivity|].
  destruct Hi as [[error ->] | [results ->]]; cbn [handle].
  - destruct (stale_onError_effect w' l error Hstale) as (Hp & Hq & _). now split.
  - destruct (stale_onResults_effect w' l results Hstale) as (Hp & Hq & _). now split.
Qed.

Lemma superseded_listener_never_finishes_witness :
  let w := run initialWorld
             [CallStart device (plainCall 1); RunPosted NativeOk;
              CallStart device (plainCall 2)] in
  let w' := run w [RunPosted NativeOk; CallStop (plainCall 3)] in
  state (plugin (step w' (EngineError (listenerOf (plainCall 1) 1) ERROR_CLIENT)))
  = state (plugin w').
Proof.
  cbv zeta.
  destruct (superseded_listener_never_finishes
              (run initialWorld
                 [CallStart device (plainCall 1); RunPosted NativeOk;
                  CallStart device (plainCall 2)])
              [RunPosted NativeOk; CallStop (plainCall 3)]
              (listenerOf (plainCall 1) 1)
              (EngineError (listenerOf (plainCall 1) 1) ERROR_CLIENT)) as (Hp & _).
  - run_scenario. discriminate.
  - run_scenario. discriminate.
  - run_scenario.
  - left. exists ERROR_CLIENT. reflexivity.
  - cbv zeta in Hp. rewrite Hp. reflexivity.
Defined.
